(** * Speech cognitive analysis tool: feature utilities and pipeline orchestrator

    A shallow embedding of [src/utils/featureUtils.js] (linguistic features,
    risk scoring, audio quality) and of the audio processing pipeline
    ([preprocessAudio], [transcribeAudio], [extractFeatures],
    [runAnalysisModel], [processAudioPipeline]).

    Modelling conventions.
    - A JavaScript number is an exact rational ([Q], compared with [==]):
      rounding of IEEE doubles is not modelled.  Where a sum such as
      [0.7 + Math.random() * 0.25] can be rounded up to the end of its
      half-open range, the range is stated with both ends included.
    - A JavaScript string is a [string] whose characters are the code units
      0..255 (the Latin-1 block, which [toLowerCase] maps into itself).
    - [null]/[undefined] arguments are [None]; for the [model] parameter of
      [transcribeAudio], whose default applies to [undefined] only, [None] is
      [undefined].
    - A JavaScript object used as a dictionary is a plain object, given by
      the [gmap string _] of its own properties; a [for ... in] loop folds
      over [map_to_list], and reading a key it does not own consults
      [Object.prototype] ([get_property]).
    - [Math.random()] reads the next element of an explicit stream of draws. *)

From Stdlib Require Import QArith Qround Qminmax Lqa Lia Ascii String DecimalString
  DecimalNat.
From stdpp Require Import gmap strings list fin_maps.

Open Scope Q_scope.

(** ** JavaScript strings *)

Module JsString.

(** [!s] for a value that is a string or null: null and the empty string
    are falsy. *)
Definition falsy (s : option string) : bool :=
  match s with
  | None => true
  | Some EmptyString => true
  | Some (String _ _) => false
  end.

(** The character class [\s] restricted to code units below 256:
    TAB, LF, VT, FF, CR, SPACE and NO-BREAK SPACE. *)
Definition is_space (c : ascii) : bool :=
  let n := nat_of_ascii c in
  ((9 <=? n)%nat && (n <=? 13)%nat) || (n =? 32)%nat || (n =? 160)%nat.

(** The character class [\w]: ASCII letters, digits and underscore. *)
Definition is_word (c : ascii) : bool :=
  let n := nat_of_ascii c in
  ((48 <=? n)%nat && (n <=? 57)%nat)
  || ((65 <=? n)%nat && (n <=? 90)%nat)
  || (n =? 95)%nat
  || ((97 <=? n)%nat && (n <=? 122)%nat).

(** [String.prototype.toLowerCase] on one code unit below 256: A-Z and the
    Latin-1 capitals U+00C0..U+00DE (except the multiplication sign U+00D7)
    move up by 32. *)
Definition lower_char (c : ascii) : ascii :=
  let n := nat_of_ascii c in
  if ((65 <=? n)%nat && (n <=? 90)%nat)
     || ((192 <=? n)%nat && (n <=? 222)%nat && negb (n =? 215)%nat)
  then ascii_of_nat (n + 32)
  else c.

Fixpoint toLowerCase (s : string) : string :=
  match s with
  | EmptyString => EmptyString
  | String c s' => String (lower_char c) (toLowerCase s')
  end.

(** [s.split(/[sep]+/)] for a character class [sep]: the pieces between the
    maximal runs of separator characters, including the empty piece before a
    leading run and after a trailing run.  [split_go prev s] returns the
    piece under construction and the pieces after it; [prev] tells whether
    the previous character was a separator. *)
Fixpoint split_go (sep : ascii -> bool) (prev : bool) (s : string)
  : string * list string :=
  match s with
  | EmptyString => (EmptyString, [])
  | String c s' =>
      if sep c then
        if prev then split_go sep true s'
        else (EmptyString, let (t, r) := split_go sep true s' in t :: r)
      else
        let (t, r) := split_go sep false s' in (String c t, r)
  end.

Definition split_on (sep : ascii -> bool) (s : string) : list string :=
  let (t, r) := split_go sep false s in t :: r.

(** [s.split(/\s+/)] *)
Definition split_ws : string -> list string := split_on is_space.

(** [s.trim()] *)
Fixpoint trimStart (s : string) : string :=
  match s with
  | EmptyString => EmptyString
  | String c s' => if is_space c then trimStart s' else s
  end.

Fixpoint trimEnd (s : string) : string :=
  match s with
  | EmptyString => EmptyString
  | String c s' =>
      match trimEnd s' with
      | EmptyString => if is_space c then EmptyString else String c EmptyString
      | t => String c t
      end
  end.

Definition trim (s : string) : string := trimEnd (trimStart s).

(** [word.length > 0] *)
Definition nonempty (s : string) : bool :=
  match s with EmptyString => false | String _ _ => true end.

(** Number of words of a text: the positions at which a non-whitespace
    character follows the start of the text or a whitespace character. *)
Fixpoint word_starts (prev_space : bool) (s : string) : nat :=
  match s with
  | EmptyString => 0
  | String c s' =>
      if is_space c then word_starts true s'
      else (if prev_space then 1 else 0) + word_starts false s'
  end.

Definition word_count (s : string) : nat := word_starts true s.

End JsString.

Import JsString.

(** ** featureUtils.js: linguistic features *)

(** Calculate speech rate (words per minute). *)
Definition calculateSpeechRate (transcription : option string)
    (durationInSeconds : Q) : Q :=
  if falsy transcription || Qle_bool durationInSeconds 0 then 0
  else
    let words := filter (λ word, nonempty word = true)
                   (split_ws (default EmptyString transcription)) in
    let wordCount := inject_Z (Z.of_nat (length words)) in
    let durationInMinutes := durationInSeconds / 60 in
    wordCount / durationInMinutes.

Definition hesitationWords : list string :=
  ["uh"; "um"; "er"; "ah"; "hmm"; "ehm"]%string.

(** Count hesitations in transcription. *)
Definition countHesitations (transcription : option string) : nat :=
  if falsy transcription then 0%nat
  else
    let words := split_ws (toLowerCase (default EmptyString transcription)) in
    length (filter (λ word, word ∈ hesitationWords) words).

Definition vagueWords : list string :=
  ["thing"; "stuff"; "something"; "somewhere"; "somehow"; "whatever";
   "whatsoever"]%string.

(** Count vague words. *)
Definition countVagueWords (transcription : option string) : nat :=
  if falsy transcription then 0%nat
  else
    let words := split_ws (toLowerCase (default EmptyString transcription)) in
    length (filter (λ word, word ∈ vagueWords) words).

(** ** Regular expression scanning *)

Module Regex.

(** [\b] between two neighbouring characters ([None] is an end of the
    input): exactly one of them is a word character. *)
Definition is_word_opt (c : option ascii) : bool :=
  match c with Some c => is_word c | None => false end.

Definition boundary (before after : option ascii) : bool :=
  xorb (is_word_opt before) (is_word_opt after).

Definition first_char (s : string) : option ascii :=
  match s with EmptyString => None | String c _ => Some c end.

Fixpoint last_char (s : string) : option ascii :=
  match s with
  | EmptyString => None
  | String c EmptyString => Some c
  | String _ s' => last_char s'
  end.

(** Characters compared under the [i] flag (pattern characters are ASCII). *)
Definition ci_eqb (a b : ascii) : bool :=
  Ascii.eqb (lower_char a) (lower_char b).

(** [strip_ci p s]: what is left of [s] after the literal [p] matched
    case-insensitively at its start. *)
Fixpoint strip_ci (p s : string) : option string :=
  match p, s with
  | EmptyString, _ => Some s
  | String a p', String b s' => if ci_eqb a b then strip_ci p' s' else None
  | String _ _, EmptyString => None
  end.

(** Length of the run of [c] at the start of [s]. *)
Fixpoint run_length (c : ascii) (s : string) : nat :=
  match s with
  | String d s' => if Ascii.eqb c d then S (run_length c s') else 0
  | EmptyString => 0
  end.

(** First alternative that matches. *)
Fixpoint first_match {A} (alts : list (option A)) : option A :=
  match alts with
  | [] => None
  | Some x :: _ => Some x
  | None :: alts' => first_match alts'
  end.

(** [s.match(re)] for a global regular expression whose matches are never
    empty: the number of matches found scanning left to right, each search
    resuming where the previous match ended.  [match_at prev s] is the
    length of the match of [re] that starts at the head of [s], the character
    before it being [prev]; [skip] counts the characters of the current
    match still to pass. *)
Fixpoint count_matches (match_at : option ascii -> string -> option nat)
    (skip : nat) (prev : option ascii) (s : string) : nat :=
  match s with
  | EmptyString => 0
  | String c s' =>
      match skip with
      | S k => count_matches match_at k (Some c) s'
      | O =>
          match match_at prev s with
          | Some (S k) => S (count_matches match_at k (Some c) s')
          | _ => count_matches match_at 0 (Some c) s'
          end
      end
  end.

(** [re.test(s)] for an unanchored-left pattern: some position matches. *)
Fixpoint test (match_at : option ascii -> string -> bool)
    (prev : option ascii) (s : string) : bool :=
  match_at prev s
  || match s with
     | EmptyString => false
     | String c s' => test match_at (Some c) s'
     end.

(** A literal alternative between two [\b]: its length when it matches at
    the head of [s] with a word boundary on both sides. *)
Definition word_literal (prev : option ascii) (s : string) (p : string)
  : option nat :=
  if boundary prev (first_char s) then
    match strip_ci p s with
    | Some rest =>
        if boundary (last_char (substring 0 (String.length p) s))
                    (first_char rest)
        then Some (String.length p) else None
    | None => None
    end
  else None.

End Regex.

Import Regex.

(** [/\.{2,}|,{2,}|\.\.\.|--+/g] *)
Definition pauseRegex (_ : option ascii) (s : string) : option nat :=
  let at_least_two c :=
    let n := run_length c s in if (2 <=? n)%nat then Some n else None in
  first_match
    [ at_least_two "."%char;
      at_least_two ","%char;
      (if String.prefix "..." s then Some 3%nat else None);
      at_least_two "-"%char ].

(** Count pauses in transcription. *)
Definition countPauses (transcription : option string) : nat :=
  if falsy transcription then 0%nat
  else count_matches pauseRegex 0 None (default EmptyString transcription).

(** [/[.!?]+/] *)
Definition is_terminator (c : ascii) : bool :=
  Ascii.eqb c "."%char || Ascii.eqb c "!"%char || Ascii.eqb c "?"%char.

Definition danglingWords : list string :=
  ["and"; "but"; "or"; "so"; "because"; "if"; "when"]%string.

Definition all_space (s : string) : bool :=
  forallb is_space (list_ascii_of_string s).

(** [/\b(and|but|or|so|because|if|when)\s*$/i] at one position. *)
Definition danglingRegex (prev : option ascii) (s : string) : bool :=
  boundary prev (first_char s)
  && existsb (λ w, match strip_ci w s with
                   | Some rest => all_space rest
                   | None => false
                   end) danglingWords.

(** Detect incomplete sentences. *)
Definition detectIncompleteSentences (transcription : option string) : nat :=
  if falsy transcription then 0%nat
  else
    let sentences :=
      filter (λ s, nonempty (trim s) = true)
        (split_on is_terminator (default EmptyString transcription)) in
    fold_left
      (λ incompleteCount sentence,
         if (length (split_ws sentence) <? 3)%nat
            || test danglingRegex None (trim sentence)
         then S incompleteCount else incompleteCount)
      sentences 0%nat.

Definition lostWordsPatterns : list (option ascii -> string -> option nat) :=
  [ (** [/\b(that thing|you know|like|what's it called|what do you call it)\b/gi] *)
    (λ prev s,
       first_match
         (map (word_literal prev s)
            ["that thing"; "you know"; "like"; "what's it called";
             "what do you call it"]%string));
    (** [/\bI (can't remember|forgot|don't recall)\b/gi] *)
    (λ prev s,
       first_match
         (map (word_literal prev s)
            ["I can't remember"; "I forgot"; "I don't recall"]%string)) ].

(** Count "lost words" indicators. *)
Definition countLostWords (transcription : option string) : nat :=
  if falsy transcription then 0%nat
  else
    fold_left
      (λ count pattern,
         (count + count_matches pattern 0 None
                    (default EmptyString transcription))%nat)
      lostWordsPatterns 0%nat.

(** ** Math.random *)

(** The random source: an infinite sequence of draws and the index of the next
    one.  Every draw of [Math.random()] lies in [0, 1). *)
Record Rng := mkRng { draws : nat -> Q; next : nat }.

Definition Math_random (g : Rng) : Q * Rng :=
  (draws g (next g), mkRng (draws g) (S (next g))).

Definition valid_rng (g : Rng) : Prop :=
  ∀ n, 0 <= draws g n ∧ draws g n < 1.

(** A source that yields the elements of [l], then [d] for ever. *)
Definition rng_of_list (l : list Q) (d : Q) : Rng :=
  mkRng (λ n, nth n l d) 0.

(** [Math.floor(x)] as a number. *)
Definition Math_floor (x : Q) : Q := inject_Z (Qfloor x).

(** [x > y] *)
Definition Qgtb (x y : Q) : bool := negb (Qle_bool x y).

(** ** featureUtils.js: scoring *)

(** Calculate semantic coherence: the transcription is not looked at. *)
Definition calculateSemanticAnomaly (transcription : option string)
    (g : Rng) : Q * Rng :=
  let (r, g) := Math_random g in
  (0.1 + r * 0.2, g).

(** A feature vector or a weight map: a JavaScript object with numeric
    values. *)
Abbreviation NumObject := (gmap string Q).

(** Normalize features for model input. *)
Definition normalizeFeatures (features : option NumObject) : option NumObject :=
  features.

(** Truthiness of a number: every number but zero. *)
Definition truthy (w : Q) : bool := negb (Qeq_bool w 0).

(** The names of the members that every plain object inherits from
    [Object.prototype]. *)
Definition objectPrototypeNames : list string :=
  [ "constructor"; "__defineGetter__"; "__defineSetter__"; "hasOwnProperty";
    "__lookupGetter__"; "__lookupSetter__"; "isPrototypeOf";
    "propertyIsEnumerable"; "toString"; "valueOf"; "__proto__";
    "toLocaleString" ]%string.

(** What [object[key]] evaluates to, for a plain object whose own properties
    are numbers: the own property when there is one; otherwise the member
    inherited from [Object.prototype] when [key] names one (a function, or
    [Object.prototype] itself for [__proto__]: truthy, and not a number);
    otherwise [undefined]. *)
Inductive Property :=
  | OwnNumber (w : Q)
  | InheritedMember
  | Undefined.

Definition get_property (object : NumObject) (key : string) : Property :=
  match object !! key with
  | Some w => OwnNumber w
  | None =>
      if bool_decide (key ∈ objectPrototypeNames) then InheritedMember
      else Undefined
  end.

(** The two accumulators of [calculateRiskScore].  They are numbers until an
    inherited member is reached: [features[feature] * weights[feature]] is
    then [NaN], so that [weightedSum] is [NaN] from then on, and
    [weightTotal += weights[feature]] appends the text of the member to the
    digits of [weightTotal], which from then on is a string that does not
    read as a number, whatever is appended later. *)
Inductive Sums :=
  | Numbers (weightedSum weightTotal : Q)
  | NotNumbers.

(** One iteration of the loop of [calculateRiskScore]. *)
Definition risk_step (weights : NumObject) (acc : Sums) (kv : string * Q)
  : Sums :=
  match get_property weights kv.1 with
  | OwnNumber w =>
      if truthy w then
        match acc with
        | Numbers weightedSum weightTotal =>
            Numbers (weightedSum + kv.2 * w) (weightTotal + w)
        | NotNumbers => NotNumbers
        end
      else acc
  | InheritedMember => NotNumbers
  | Undefined => acc
  end.

(** Calculate weighted risk score based on feature weights.  The comparison
    [weightTotal > 0] is false for a string that does not read as a
    number. *)
Definition calculateRiskScore (features weights : option NumObject) : Q :=
  match features, weights with
  | Some features, Some weights =>
      match fold_left (risk_step weights) (map_to_list features)
              (Numbers 0 0) with
      | Numbers weightedSum weightTotal =>
          if Qgtb weightTotal 0 then weightedSum / weightTotal else 0
      | NotNumbers => 0
      end
  | _, _ => 0
  end.

(** ** featureUtils.js: audio quality *)

Inductive Issue := low_snr | clipping | distortion.

(** [issues.length * 0.2] subtracted from 0.95, clamped. *)
Definition qualityScore (issues : list Issue) : Q :=
  Qmin 1 (Qmax 0 (0.95 - inject_Z (Z.of_nat (length issues)) * 0.2)).

Record QualityData := mkQuality { q_qualityScore : Q; q_issues : list Issue }.

(** Check audio quality (SNR, clipping, etc.): always [success: true]. *)
Definition checkAudioQuality {File} (audioFile : File) (g : Rng)
  : QualityData * Rng :=
  let issues := [] in
  let (r1, g) := Math_random g in
  let issues := if Qgtb r1 0.8 then issues ++ [low_snr] else issues in
  let (r2, g) := Math_random g in
  let issues := if Qgtb r2 0.9 then issues ++ [clipping] else issues in
  let (r3, g) := Math_random g in
  let issues := if Qgtb r3 0.95 then issues ++ [distortion] else issues in
  (mkQuality (qualityScore issues) issues, g).

(** ** The audio processing pipeline: data *)

Record AudioFile := mkFile { name : string }.

(** What a stage returns: [{success: true, data}] or
    [{success: false, error}]. *)
Inductive StageResult (A : Type) :=
| Success (data : A)
| Failure (error : string).
Arguments Success {A} data.
Arguments Failure {A} error.

Record Settings := mkSettings {
  modelType : string;
  contamination : Q;
  featureWeights : NumObject;
  transcriptionModel : option string
}.

Record PreprocessData := mkPreprocess {
  pre_file : AudioFile; pre_duration : Q; pre_sampleRate : Q
}.

Record TranscriptionData := mkTranscription {
  tr_file : AudioFile; tr_transcription : string; tr_confidence : Q;
  tr_model : string
}.

Record FeaturesData := mkFeatures {
  fe_file : AudioFile; fe_features : NumObject
}.

Inductive RiskStatus := AtRisk | Normal.

Record AnalysisData := mkAnalysis {
  an_risk_status : RiskStatus;
  an_confidence : Q;
  an_model_used : string;
  an_key_indicators : list string;
  an_analysis_notes : list string
}.

Record AnalysisResult := mkResult {
  r_id : string;
  r_file_name : string;
  r_risk_status : RiskStatus;
  r_confidence : Q;
  r_key_indicators : list string;
  r_features : NumObject;
  r_transcription : string;
  r_analysis_notes : list string
}.

(** The argument of one [updateProgress] call: [currentStep] and [stepName]
    are absent from the calls that only report [progress]. *)
Record ProgressUpdate := mkUpdate {
  u_currentStep : option nat;
  u_stepName : option string;
  u_progress : Q
}.

(** The processing state kept by the caller (reducer case
    [UPDATE_PROCESSING]): an update overwrites the fields it carries. *)
Record ProgressEvent := mkEvent {
  currentStep : nat;
  stepName : string;
  progress : Q
}.

Definition update_processing (st : ProgressEvent) (u : ProgressUpdate)
  : ProgressEvent :=
  mkEvent (default (currentStep st) (u_currentStep u))
          (default (stepName st) (u_stepName u))
          (u_progress u).

(** The states the caller goes through while the updates [us] arrive. *)
Fixpoint observed (st : ProgressEvent) (us : list ProgressUpdate)
  : list ProgressEvent :=
  match us with
  | [] => []
  | u :: us' =>
      let st' := update_processing st u in st' :: observed st' us'
  end.

(** [initialState.processing] *)
Definition initialProcessing : ProgressEvent := mkEvent 0 "" 0.

(** What [processAudioPipeline] returns. *)
Inductive PipelineResult :=
| PipelineSuccess (data : list AnalysisResult)
| PipelineFailure (error : string).

(** ** The stages (demonstration implementations) *)

(** Function to preprocess audio files. *)
Definition preprocessAudio (audioFile : AudioFile) (g : Rng)
  : StageResult PreprocessData * Rng :=
  let (r, g) := Math_random g in
  (Success (mkPreprocess audioFile (r * 60 + 20) 16000), g).

Definition placeholderTranscription : string :=
  "This is a placeholder transcription for demonstration purposes. In a real application, this would be the actual transcribed speech from the audio file.".

(** Function to transcribe audio; [model] is [None] when the argument is
    [undefined] (a settings object without [transcriptionModel]), in which
    case the parameter takes its default ['wav2vec2']. *)
Definition transcribeAudio (audioFile : AudioFile) (model : option string)
    (g : Rng) : StageResult TranscriptionData * Rng :=
  let model := default "wav2vec2"%string model in
  (Success (mkTranscription audioFile placeholderTranscription 0.87 model), g).

(** Function to extract features from audio and transcription. *)
Definition extractFeatures (audioFile : AudioFile) (transcription : string)
    (g : Rng) : StageResult FeaturesData * Rng :=
  let (r1, g) := Math_random g in
  let (r2, g) := Math_random g in
  let (r3, g) := Math_random g in
  let (r4, g) := Math_random g in
  let (r5, g) := Math_random g in
  let (r6, g) := Math_random g in
  let (r7, g) := Math_random g in
  let (r8, g) := Math_random g in
  let features : NumObject :=
    list_to_map
      [ ("hesitation_count"%string, Math_floor (r1 * 10));
        ("pause_count"%string, Math_floor (r2 * 8));
        ("speech_rate"%string, 2 + r3 * 2);
        ("pitch_variability"%string, 800 + r4 * 300);
        ("semantic_anomaly"%string, 0.1 + r5 * 0.2);
        ("vague_word_count"%string, Math_floor (r6 * 3));
        ("incomplete_sentence"%string, if Qgtb r7 0.8 then 1 else 0);
        ("lost_words"%string, Math_floor (r8 * 5)) ] in
  (Success (mkFeatures audioFile features), g).

(** Function to run unsupervised learning models. *)
Definition runAnalysisModel (features : NumObject) (settings : Settings)
    (g : Rng) : StageResult AnalysisData * Rng :=
  let (r, g) := Math_random g in
  let isAtRisk := Qgtb r 0.7 in
  let (rc, g) := Math_random g in
  let '(key_indicators, g) :=
    if isAtRisk then
      let (rk, g) := Math_random g in
      (take (Z.to_nat (Qfloor (rk * 3) + 1))
         ["Hesitation"; "Semantic Anomaly"; "Slow Speech Rate"]%string, g)
    else (["Normal Speech Pattern"%string], g) in
  (Success
     (mkAnalysis
        (if isAtRisk then AtRisk else Normal)
        (0.7 + rc * 0.25)
        (modelType settings)
        key_indicators
        (if isAtRisk then
           ["Higher than normal hesitation frequency detected";
            "Semantic coherence is below average";
            "Speech patterns show potential cognitive indicators"]%string
         else
           ["Speech patterns within normal range";
            "No significant cognitive indicators detected"]%string)),
   g).

(** ** The orchestrator *)

Module Orchestrator.

(** What the body of the [try] block of [processAudioPipeline] can do:
    complete with a value or throw [new Error(message)]. *)
Inductive Outcome (A : Type) :=
| Done (a : A)
| Thrown (message : string).
Arguments Done {A} a.
Arguments Thrown {A} message.

Section WithStages.

(** The state the stages work on (the random source, for the
    demonstration stages) and the four stages. *)
Context {W : Type}.
Variable preprocess_stage :
  AudioFile -> W -> StageResult PreprocessData * W.
Variable transcribe_stage :
  AudioFile -> option string -> W -> StageResult TranscriptionData * W.
Variable extract_stage :
  AudioFile -> string -> W -> StageResult FeaturesData * W.
Variable analysis_stage :
  NumObject -> Settings -> W -> StageResult AnalysisData * W.

(** The state of a run: the stages' state and the updates passed to
    [updateProgress] so far, oldest first. *)
Record Run := mkRun { world : W; log : list ProgressUpdate }.

Definition M (A : Type) : Type := Run -> Outcome A * Run.

Definition ret {A} (a : A) : M A := λ st, (Done a, st).

Definition bind {A B} (m : M A) (k : A -> M B) : M B :=
  λ st, match m st with
        | (Done a, st') => k a st'
        | (Thrown e, st') => (Thrown e, st')
        end.

Definition throw {A} (message : string) : M A := λ st, (Thrown message, st).

Definition updateProgress (u : ProgressUpdate) : M unit :=
  λ st, (Done tt, mkRun (world st) (log st ++ [u])).

(** [const r = await stage(...); if (!r.success) throw new Error(r.error)] *)
Definition await {A} (stage : W -> StageResult A * W) : M A :=
  λ st, let (r, w) := stage (world st) in
        match r with
        | Success data => ret data (mkRun w (log st))
        | Failure error => throw error (mkRun w (log st))
        end.

#[local] Instance M_ret : MRet M := @ret.
#[local] Instance M_bind : MBind M := λ A B k m, bind m k.

Definition enter (step : nat) (stepName : string) : ProgressUpdate :=
  mkUpdate (Some step) (Some stepName) 0.

Definition completed : ProgressUpdate := mkUpdate None None 100.

Definition compiling (i n : nat) : ProgressUpdate :=
  mkUpdate (Some 5%nat) (Some "Compiling Results"%string)
    (inject_Z (Z.of_nat (i + 1)) / inject_Z (Z.of_nat n) * 100).

Definition result_id (i : nat) : string :=
  ("result-" ++ NilEmpty.string_of_uint (Nat.to_uint i))%string.

(** The body of the [for] loop for the file at index [i] of a batch of
    [n] files.  The result is what the body pushes on [results]. *)
Definition processFile (n : nat) (settings : Settings) (i : nat)
    (audioFile : AudioFile) : M AnalysisResult :=
  updateProgress (enter 1 "Preprocessing Audio") ;;
  preprocessedAudio ← await (preprocess_stage audioFile) ;
  updateProgress completed ;;
  updateProgress (enter 2 "Transcribing Audio") ;;
  transcriptionResult ←
    await (transcribe_stage audioFile (transcriptionModel settings)) ;
  updateProgress completed ;;
  updateProgress (enter 3 "Extracting Features") ;;
  featuresResult ←
    await (extract_stage audioFile (tr_transcription transcriptionResult)) ;
  updateProgress completed ;;
  updateProgress (enter 4 "Running Analysis Model") ;;
  analysisResult ←
    await (analysis_stage (fe_features featuresResult) settings) ;
  updateProgress completed ;;
  let result :=
    mkResult (result_id i) (name audioFile)
      (an_risk_status analysisResult) (an_confidence analysisResult)
      (an_key_indicators analysisResult) (fe_features featuresResult)
      (tr_transcription transcriptionResult)
      (an_analysis_notes analysisResult) in
  updateProgress (compiling i n) ;;
  mret result.

(** The [for] loop from index [i] on, [results] holding what was pushed
    so far. *)
Fixpoint processFiles (n : nat) (settings : Settings) (i : nat)
    (audioFiles : list AudioFile) (results : list AnalysisResult)
  : M (list AnalysisResult) :=
  match audioFiles with
  | [] => mret results
  | audioFile :: rest =>
      result ← processFile n settings i audioFile ;
      processFiles n settings (S i) rest (results ++ [result])
  end.

(** Main pipeline function that coordinates all the steps. *)
Definition processAudioPipeline (audioFiles : list AudioFile)
    (settings : Settings) : Run -> PipelineResult * Run :=
  λ st,
    match processFiles (length audioFiles) settings 0 audioFiles [] st with
    | (Done results, st') => (PipelineSuccess results, st')
    | (Thrown message, st') =>
        (PipelineFailure
           ("Error in audio processing pipeline: " ++ message)%string, st')
    end.

(** The updates of one file that is processed to the end. *)
Definition file_updates (n i : nat) : list ProgressUpdate :=
  [ enter 1 "Preprocessing Audio"; completed;
    enter 2 "Transcribing Audio"; completed;
    enter 3 "Extracting Features"; completed;
    enter 4 "Running Analysis Model"; completed;
    compiling i n ].


(** All four stages succeed for [f], one after the other, taking the
    stages' state from [w] to [w']. *)
Inductive stages_succeed (settings : Settings) (f : AudioFile) (w : W)
  : TranscriptionData -> FeaturesData -> AnalysisData -> W -> Prop :=
| stages_ok d1 w1 tr w2 fe w3 an w4 :
    preprocess_stage f w = (Success d1, w1) →
    transcribe_stage f (transcriptionModel settings) w1 = (Success tr, w2) →
    extract_stage f (tr_transcription tr) w2 = (Success fe, w3) →
    analysis_stage (fe_features fe) settings w3 = (Success an, w4) →
    stages_succeed settings f w tr fe an w4.

(** Stage number [k] (1 to 4) fails for [f] with the error [e], the stages
    before it having succeeded; [w'] is the stages' state after the failing
    call. *)
Inductive stage_fails (settings : Settings) (f : AudioFile) (w : W)
  : nat -> string -> W -> Prop :=
| fails_preprocess e w1 :
    preprocess_stage f w = (Failure e, w1) →
    stage_fails settings f w 1 e w1
| fails_transcribe d1 w1 e w2 :
    preprocess_stage f w = (Success d1, w1) →
    transcribe_stage f (transcriptionModel settings) w1 = (Failure e, w2) →
    stage_fails settings f w 2 e w2
| fails_extract d1 w1 tr w2 e w3 :
    preprocess_stage f w = (Success d1, w1) →
    transcribe_stage f (transcriptionModel settings) w1 = (Success tr, w2) →
    extract_stage f (tr_transcription tr) w2 = (Failure e, w3) →
    stage_fails settings f w 3 e w3
| fails_analysis d1 w1 tr w2 fe w3 e w4 :
    preprocess_stage f w = (Success d1, w1) →
    transcribe_stage f (transcriptionModel settings) w1 = (Success tr, w2) →
    extract_stage f (tr_transcription tr) w2 = (Success fe, w3) →
    analysis_stage (fe_features fe) settings w3 = (Failure e, w4) →
    stage_fails settings f w 4 e w4.

(** Every file of the list is processed with all stages succeeding. *)
Inductive files_succeed (settings : Settings)
  : list AudioFile -> W -> W -> Prop :=
| files_nil w : files_succeed settings [] w w
| files_cons f files w tr fe an w1 w2 :
    stages_succeed settings f w tr fe an w1 →
    files_succeed settings files w1 w2 →
    files_succeed settings (f :: files) w w2.

(** The updates of the files at the indices [i], ..., [i + k - 1]. *)
Definition batch_updates (n i k : nat) : list ProgressUpdate :=
  mjoin (file_updates n <$> seq i k).

End WithStages.

Arguments mkRun {W} world log.
Arguments world {W} r.
Arguments log {W} r.

End Orchestrator.

(** The pipeline with the demonstration stages. *)
Definition processAudioPipeline (audioFiles : list AudioFile)
    (settings : Settings) (g : Rng) : PipelineResult * list ProgressUpdate :=
  let (r, st) :=
    Orchestrator.processAudioPipeline
      preprocessAudio transcribeAudio extractFeatures runAnalysisModel
      audioFiles settings (Orchestrator.mkRun g []) in
  (r, Orchestrator.log st).

Definition demoSettings : Settings :=
  mkSettings "isolation_forest" 0.2
    (list_to_map (map (λ k, (k, 1.0))
       ["hesitation_count"; "pause_count"; "speech_rate"; "pitch_variability";
        "semantic_anomaly"; "vague_word_count"; "incomplete_sentence";
        "lost_words"]%string))
    (Some "wav2vec2"%string).

(** ** Definitions used to state the properties *)

(** *** Incomplete sentences, in the specification's words *)

(** The count as the specification words it: the sentences are the segments
    between runs of '.', '!' and '?' that are not empty or whitespace-only; a
    sentence counts when it has fewer than three words or its last word is a
    dangling conjunction, whatever its case. *)
Definition ends_with_dangling (sentence : string) : bool :=
  match last (filter (λ w, nonempty w = true) (split_ws sentence)) with
  | Some w => bool_decide (toLowerCase w ∈ danglingWords)
  | None => false
  end.

Definition detectIncompleteSentences_spec (text : string) : nat :=
  let sentences :=
    filter (λ s, all_space s = false) (split_on is_terminator text) in
  length (filter (λ s, (word_count s < 3)%nat ∨ ends_with_dangling s = true)
            sentences).

(** *** Sums over the keys shared by features and weights *)







(** *** Batches of feature vectors *)

(** The anomaly model on a batch of feature vectors: one call of
    [runAnalysisModel] per vector, in order, as the pipeline makes them. *)
Fixpoint analyseBatch (batch : list NumObject) (settings : Settings) (g : Rng)
  : list (StageResult AnalysisData) * Rng :=
  match batch with
  | [] => ([], g)
  | features :: rest =>
      let (r, g) := runAnalysisModel features settings g in
      let (rs, g) := analyseBatch rest settings g in
      (r :: rs, g)
  end.

Definition labelledAtRisk (r : StageResult AnalysisData) : bool :=
  match r with
  | Success an =>
      match an_risk_status an with AtRisk => true | Normal => false end
  | Failure _ => false
  end.

(** The fraction of the files of a batch that are labelled at risk. *)
Definition atRiskFraction (rs : list (StageResult AnalysisData)) : Q :=
  inject_Z (Z.of_nat (length (filter (λ r, labelledAtRisk r = true) rs)))
  / inject_Z (Z.of_nat (length rs)).

Definition isolationForest (c : Q) : Settings :=
  mkSettings "isolation_forest" c (featureWeights demoSettings)
    (transcriptionModel demoSettings).

(** *** Concrete inputs *)

(** A feature vector and a sequence of draws for the examples. *)
Definition sampleFeatures : NumObject :=
  list_to_map
    [ ("hesitation_count"%string, 4); ("pause_count"%string, 2);
      ("speech_rate"%string, 2.5); ("pitch_variability"%string, 900);
      ("semantic_anomaly"%string, 0.2); ("vague_word_count"%string, 1);
      ("incomplete_sentence"%string, 0); ("lost_words"%string, 3) ].

Definition sampleDraws : Rng :=
  rng_of_list [0.5; 0.1; 0.2; 0.3; 0.4; 0.5; 0.6; 0.9; 0.7; 0.75; 0.5; 0.4] 0.

(** A preprocessing stage that rejects one file and otherwise behaves as
    [preprocessAudio]. *)
Definition preprocessExcept (bad : string) (audioFile : AudioFile) (g : Rng)
  : StageResult PreprocessData * Rng :=
  if String.eqb (name audioFile) bad
  then (Failure "Error preprocessing audio: corrupt file"%string, g)
  else preprocessAudio audioFile g.

(** ** featureUtils.js: signal features (demonstration implementations) *)

(** [Array(n).fill(0).map(() => body())]: [n] calls of [body], first to
    last. *)
Fixpoint array_map_random {A} (n : nat) (body : Rng -> A * Rng) (g : Rng)
  : list A * Rng :=
  match n with
  | O => ([], g)
  | S n' =>
      let (x, g) := body g in
      let (xs, g) := array_map_random n' body g in
      (x :: xs, g)
  end.

(** Get audio waveform data (for visualization): always [success: true]. *)
Definition getAudioWaveform {File} (audioFile : File) (g : Rng)
  : list Q * Rng :=
  let sampleCount := 100%nat in
  array_map_random sampleCount
    (λ g, let (r, g) := Math_random g in (r * 2 - 1, g)) g.

Record PitchStats := mkPitch {
  meanPitch : Q; variability : Q; range_low : Q; range_high : Q
}.

(** Calculate pitch statistics: always [success: true]. *)
Definition calculatePitchStats {File} (audioFile : File) (g : Rng)
  : PitchStats * Rng :=
  let (r1, g) := Math_random g in
  let (r2, g) := Math_random g in
  let (r3, g) := Math_random g in
  let (r4, g) := Math_random g in
  (mkPitch (120 + r1 * 60) (800 + r2 * 300) (80 + r3 * 40) (160 + r4 * 80), g).

Record AudioPause := mkPause { pause_start : Q; pause_duration : Q }.

Record PauseData := mkPauses { pauseCount : Z; pauses : list AudioPause }.

(** Detect pauses in audio: always [success: true]. *)
Definition detectAudioPauses {File} (audioFile : File) (g : Rng)
  : PauseData * Rng :=
  let (r, g) := Math_random g in
  let pauseCount := Qfloor (r * 8) in
  let (pauses, g) :=
    array_map_random (Z.to_nat pauseCount)
      (λ g, let (rs, g) := Math_random g in
            let start := rs * 30 in
            let (rd, g) := Math_random g in
            let duration := 0.5 + rd * 2 in
            (mkPause start duration, g)) g in
  (mkPauses pauseCount pauses, g).

(** ** Demonstration results (AnalysisContext and pythonBackend.js) *)

Definition sampleTranscription : string :=
  "This is a sample transcription of speech that would normally be generated by the Wav2Vec2 model. In a real application, this would contain the actual transcribed content from the audio file.".

(** The object literal that [generateMockResults] and [getAnalysisResults]
    both build for one file; the draws are made in the order of the source:
    [isAtRisk], [confidence], [key_indicators] (when at risk), then the eight
    features. *)
Definition mockResult (id file_name : string) (g : Rng)
  : AnalysisResult * Rng :=
  let (r, g) := Math_random g in
  let isAtRisk := Qgtb r 0.7 in
  let (rc, g) := Math_random g in
  let '(key_indicators, g) :=
    if isAtRisk then
      let (rk, g) := Math_random g in
      (take (Z.to_nat (Qfloor (rk * 3) + 1))
         ["Hesitation"; "Semantic Anomaly"; "Slow Speech Rate"]%string, g)
    else (["Normal Speech Pattern"%string], g) in
  let (r1, g) := Math_random g in
  let (r2, g) := Math_random g in
  let (r3, g) := Math_random g in
  let (r4, g) := Math_random g in
  let (r5, g) := Math_random g in
  let (r6, g) := Math_random g in
  let (r7, g) := Math_random g in
  let (r8, g) := Math_random g in
  let features : NumObject :=
    list_to_map
      [ ("hesitation_count"%string, Math_floor (r1 * 10));
        ("pause_count"%string, Math_floor (r2 * 8));
        ("speech_rate"%string, 2 + r3 * 2);
        ("pitch_variability"%string, 800 + r4 * 300);
        ("semantic_anomaly"%string, 0.1 + r5 * 0.2);
        ("vague_word_count"%string, Math_floor (r6 * 3));
        ("incomplete_sentence"%string, if Qgtb r7 0.8 then 1 else 0);
        ("lost_words"%string, Math_floor (r8 * 5)) ] in
  (mkResult id file_name
     (if isAtRisk then AtRisk else Normal)
     (0.7 + rc * 0.25)
     key_indicators features sampleTranscription
     (if isAtRisk then
        ["Higher than normal hesitation frequency detected";
         "Semantic coherence is below average";
         "Speech patterns show potential cognitive indicators"]%string
      else
        ["Speech patterns within normal range";
         "No significant cognitive indicators detected"]%string),
   g).

(** [names.map((fileName, index) => ...)] from the index [index] on. *)
Fixpoint mockResults_from (index : nat) (names : list string) (g : Rng)
  : list AnalysisResult * Rng :=
  match names with
  | [] => ([], g)
  | fileName :: rest =>
      let (x, g) := mockResult (Orchestrator.result_id index) fileName g in
      let (xs, g) := mockResults_from (S index) rest g in
      (x :: xs, g)
  end.

(** Generate mock results for demonstration (AnalysisContext): the names of
    the uploaded files, or five sample names when there is none. *)
Definition generateMockResults (audioFiles : list AudioFile) (g : Rng)
  : list AnalysisResult * Rng :=
  let mockFiles :=
    if (0 <? length audioFiles)%nat then name <$> audioFiles
    else ["sample1.wav"; "sample2.wav"; "sample3.wav"; "sample4.wav";
          "sample5.wav"]%string in
  mockResults_from 0 mockFiles g.

(** Function to get the results of a completed analysis (pythonBackend.js):
    five results for the files [sample_1.wav] to [sample_5.wav]; always
    [success: true]. *)
Definition getAnalysisResults (taskId : string) (g : Rng)
  : list AnalysisResult * Rng :=
  mockResults_from 0
    ((λ index, "sample_" ++ NilEmpty.string_of_uint (Nat.to_uint (index + 1))
               ++ ".wav")%string <$> seq 0 5) g.

(** ** The analysis context: state and reducer *)

Record Processing := mkProcessing {
  isProcessing : bool;
  p_currentStep : nat;
  totalSteps : nat;
  p_stepName : string;
  p_progress : Q
}.

Record State := mkState {
  st_datasetPath : string;
  st_audioFiles : list AudioFile;
  st_settings : Settings;
  st_processing : Processing;
  st_results : option (list AnalysisResult);
  st_error : option string
}.

(** The payload of [UPDATE_SETTINGS]: the settings fields it carries. *)
Record SettingsUpdate := mkSettingsUpdate {
  su_modelType : option string;
  su_contamination : option Q;
  su_featureWeights : option NumObject;
  su_transcriptionModel : option (option string)
}.

Inductive Action :=
| SET_DATASET_PATH (payload : string)
| SET_AUDIO_FILES (payload : list AudioFile)
| UPDATE_SETTINGS (payload : SettingsUpdate)
| START_PROCESSING
| UPDATE_PROCESSING (payload : ProgressUpdate)
| SET_RESULTS (payload : list AnalysisResult)
| SET_ERROR (payload : string)
| RESET
| OTHER.

Definition initialState : State :=
  mkState "" [] demoSettings (mkProcessing false 0 5 "" 0) None None.

Definition analysisReducer (state : State) (action : Action) : State :=
  match action with
  | SET_DATASET_PATH payload =>
      mkState payload (st_audioFiles state) (st_settings state)
        (st_processing state) (st_results state) (st_error state)
  | SET_AUDIO_FILES payload =>
      mkState (st_datasetPath state) payload (st_settings state)
        (st_processing state) (st_results state) (st_error state)
  | UPDATE_SETTINGS payload =>
      let s := st_settings state in
      mkState (st_datasetPath state) (st_audioFiles state)
        (mkSettings
           (default (modelType s) (su_modelType payload))
           (default (contamination s) (su_contamination payload))
           (default (featureWeights s) (su_featureWeights payload))
           (default (transcriptionModel s) (su_transcriptionModel payload)))
        (st_processing state) (st_results state) (st_error state)
  | START_PROCESSING =>
      let p := st_processing state in
      mkState (st_datasetPath state) (st_audioFiles state) (st_settings state)
        (mkProcessing true 1 (totalSteps p) "Preprocessing Audio" 0)
        (st_results state) None
  | UPDATE_PROCESSING payload =>
      let p := st_processing state in
      mkState (st_datasetPath state) (st_audioFiles state) (st_settings state)
        (mkProcessing (isProcessing p)
           (default (p_currentStep p) (u_currentStep payload))
           (totalSteps p)
           (default (p_stepName p) (u_stepName payload))
           (u_progress payload))
        (st_results state) (st_error state)
  | SET_RESULTS payload =>
      let p := st_processing state in
      mkState (st_datasetPath state) (st_audioFiles state) (st_settings state)
        (mkProcessing false (p_currentStep p) (totalSteps p) (p_stepName p)
           (p_progress p))
        (Some payload) (st_error state)
  | SET_ERROR payload =>
      let p := st_processing state in
      mkState (st_datasetPath state) (st_audioFiles state) (st_settings state)
        (mkProcessing false (p_currentStep p) (totalSteps p) (p_stepName p)
           (p_progress p))
        (st_results state) (Some payload)
  | RESET => initialState
  | OTHER => state
  end.

(** The state after the actions [actions] were dispatched in turn. *)
Definition dispatch_all (state : State) (actions : list Action) : State :=
  fold_left analysisReducer actions state.

(** *** Shape of a text *)

Definition starts_with_space (s : string) : bool :=
  match s with EmptyString => false | String c _ => is_space c end.

Fixpoint ends_with_space (s : string) : bool :=
  match s with
  | EmptyString => false
  | String c EmptyString => is_space c
  | String _ s' => ends_with_space s'
  end.

(** Number of the pieces of a split on whitespace that are in [P], the one
    under construction included. *)
Definition pieces_in (P : string -> Prop) `{∀ w, Decision (P w)}
    (prev : bool) (s : string) : nat :=
  length (filter P ((split_go is_space prev s).1
                    :: (split_go is_space prev s).2)).

(** The pause pattern without its third alternative:
    [/\.{2,}|,{2,}|--+/g]. *)
Definition pauseRegexShort (_ : option ascii) (s : string) : option nat :=
  let at_least_two c :=
    let n := run_length c s in if (2 <=? n)%nat then Some n else None in
  first_match
    [ at_least_two "."%char; at_least_two ","%char; at_least_two "-"%char ].

(** *** Ranges of the demonstration values *)

Definition featureNames : list string :=
  ["hesitation_count"; "pause_count"; "speech_rate"; "pitch_variability";
   "semantic_anomaly"; "vague_word_count"; "incomplete_sentence";
   "lost_words"]%string.

(** The feature [key] is present, at least [lo] and at most [hi]. *)
Definition feature_in (features : NumObject) (key : string) (lo hi : Q)
  : Prop :=
  ∃ v, features !! key = Some v ∧ lo <= v ∧ v <= hi.

(** The feature [key] is present and a whole number from 0 to [n - 1]. *)
Definition feature_count_below (features : NumObject) (key : string) (n : Z)
  : Prop :=
  ∃ z, features !! key = Some (inject_Z z) ∧ (0 <= z < n)%Z.

(** The ranges of the feature values that [extractFeatures],
    [generateMockResults] and [getAnalysisResults] draw. *)
Definition demo_features (features : NumObject) : Prop :=
  dom features = list_to_set featureNames
  ∧ feature_count_below features "hesitation_count" 10
  ∧ feature_count_below features "pause_count" 8
  ∧ feature_in features "speech_rate" 2 4
  ∧ feature_in features "pitch_variability" 800 1100
  ∧ feature_in features "semantic_anomaly" 0.1 0.3
  ∧ feature_count_below features "vague_word_count" 3
  ∧ feature_count_below features "incomplete_sentence" 2
  ∧ feature_count_below features "lost_words" 5.

Definition atRiskIndicators : list string :=
  ["Hesitation"; "Semantic Anomaly"; "Slow Speech Rate"]%string.

(** Indicators and notes that go with a risk status in the demonstration
    results: one to three indicators and three notes for a file at risk, the
    single indicator "Normal Speech Pattern" and two notes otherwise. *)
Definition demo_labels (status : RiskStatus) (indicators notes : list string)
  : Prop :=
  match status with
  | AtRisk =>
      (∃ n, (1 <= n <= 3)%nat ∧ indicators = take n atRiskIndicators)
      ∧ length notes = 3%nat
  | Normal =>
      indicators = ["Normal Speech Pattern"%string] ∧ length notes = 2%nat
  end.

Definition demo_result (r : AnalysisResult) : Prop :=
  0.7 <= r_confidence r ∧ r_confidence r <= 0.95
  ∧ demo_features (r_features r)
  ∧ demo_labels (r_risk_status r) (r_key_indicators r) (r_analysis_notes r).

(** *** The results of a batch *)

Section ResultsOf.

Context {W : Type}.
Variable preprocess_stage :
  AudioFile -> W -> StageResult PreprocessData * W.
Variable transcribe_stage :
  AudioFile -> option string -> W -> StageResult TranscriptionData * W.
Variable extract_stage :
  AudioFile -> string -> W -> StageResult FeaturesData * W.
Variable analysis_stage :
  NumObject -> Settings -> W -> StageResult AnalysisData * W.

(** The record compiled for the file at index [i] from what its stages
    returned. *)
Definition compiled_result (i : nat) (f : AudioFile) (tr : TranscriptionData)
    (fe : FeaturesData) (an : AnalysisData) : AnalysisResult :=
  mkResult (Orchestrator.result_id i) (name f) (an_risk_status an)
    (an_confidence an) (an_key_indicators an) (fe_features fe)
    (tr_transcription tr) (an_analysis_notes an).

(** Every file of the list, the first at index [i], is processed with all
    stages succeeding, and [rs] are the records compiled for them. *)
Inductive results_of (settings : Settings)
  : nat -> list AudioFile -> W -> list AnalysisResult -> W -> Prop :=
| results_nil i w : results_of settings i [] w [] w
| results_cons i f files w tr fe an w1 rs w2 :
    Orchestrator.stages_succeed preprocess_stage transcribe_stage
      extract_stage analysis_stage settings f w tr fe an w1 →
    results_of settings (S i) files w1 rs w2 →
    results_of settings i (f :: files) w
      (compiled_result i f tr fe an :: rs) w2.

End ResultsOf.

(** * Properties *)

(** ** Examples *)

Example split_ws_ex1 : split_ws " a  b " = [""; "a"; "b"; ""]%string.
Proof. reflexivity. Qed.
Example split_ws_ex2 : split_ws "" = [""]%string.
Proof. reflexivity. Qed.
Example hes_ex : countHesitations (Some "Um I uh ER hmm, ah"%string) = 4%nat.
Proof. vm_compute. reflexivity. Qed.
Example rate_ex : calculateSpeechRate (Some " a b  c "%string) 30 == 6.
Proof. vm_compute. reflexivity. Qed.

Example pauses_ex : countPauses (Some "well... I,, think -- no. yes, ok ----"%string) = 4%nat.
Proof. vm_compute. reflexivity. Qed.
Example lost_ex :
  countLostWords (Some "You know, I FORGOT that thing, likely like so"%string) = 4%nat.
Proof. vm_compute. reflexivity. Qed.
Example inc_ex1 : detectIncompleteSentences (Some "I went to the store and"%string) = 1%nat.
Proof. vm_compute. reflexivity. Qed.
Example inc_ex2 : detectIncompleteSentences (Some "I went to the store."%string) = 0%nat.
Proof. vm_compute. reflexivity. Qed.
Example inc_ex3 : detectIncompleteSentences (Some "Hello there. Go home."%string) = 1%nat.
Proof. vm_compute. reflexivity. Qed.

Example risk_ex :
  calculateRiskScore (Some {[ "a"%string := 10; "b"%string := 20 ]})
                     (Some {[ "a"%string := 1; "b"%string := 1 ]}) == 15.
Proof. vm_compute. reflexivity. Qed.
Example risk_neg :
  calculateRiskScore (Some {[ "a"%string := 10; "b"%string := 20 ]})
                     (Some {[ "a"%string := -1; "b"%string := 3 ]}) == 25.
Proof. vm_compute. reflexivity. Qed.
Example quality_ex :
  (checkAudioQuality tt (rng_of_list [0.85; 0.95; 0.99] 0)).1
  = mkQuality (Qmin 1 (Qmax 0 (0.95 - 3 * 0.2))) [low_snr; clipping; distortion].
Proof. vm_compute. reflexivity. Qed.


(** ** Splitting and lower-casing *)

Section SplitFacts.

Lemma is_space_lower_char c : is_space (lower_char c) = is_space c.
Proof. by destruct c as [[] [] [] [] [] [] [] []]. Qed.

Lemma lower_char_idemp c : lower_char (lower_char c) = lower_char c.
Proof. by destruct c as [[] [] [] [] [] [] [] []]. Qed.

Lemma toLowerCase_idemp s : toLowerCase (toLowerCase s) = toLowerCase s.
Proof. induction s as [|c s IH]; simpl; [done|]. by rewrite lower_char_idemp, IH. Qed.

Lemma falsy_toLowerCase s : falsy (Some (toLowerCase s)) = falsy (Some s).
Proof. by destruct s. Qed.

(** Lower-casing commutes with splitting on whitespace: no letter becomes
    or stops being a whitespace character. *)
Lemma split_go_toLowerCase prev s :
  split_go is_space prev (toLowerCase s)
  = (toLowerCase (split_go is_space prev s).1,
     toLowerCase <$> (split_go is_space prev s).2).
Proof.
  revert prev. induction s as [|c s IH]; intros prev; simpl; [done|].
  rewrite is_space_lower_char. destruct (is_space c).
  - destruct prev; [apply IH|].
    rewrite (IH true). by destruct (split_go is_space true s).
  - rewrite (IH false). by destruct (split_go is_space false s).
Qed.

Lemma split_ws_toLowerCase s :
  split_ws (toLowerCase s) = toLowerCase <$> split_ws s.
Proof.
  unfold split_ws, split_on. rewrite split_go_toLowerCase.
  by destruct (split_go is_space false s).
Qed.

Lemma length_filter_fmap {A B} (f : A -> B) (P : B -> Prop)
    `{∀ b, Decision (P b)} (l : list A) :
  length (filter P (f <$> l)) = length (filter (λ a, P (f a)) l).
Proof.
  induction l as [|a l IH]; [done|]. rewrite fmap_cons, !filter_cons.
  destruct (decide (P (f a))); simpl; by rewrite IH.
Qed.

(** The non-empty pieces of a split on whitespace are the words. *)
Lemma split_go_words s :
  length (filter (λ w, nonempty w = true) (split_go is_space false s).2)
  = word_starts false s
  ∧ length (filter (λ w, nonempty w = true)
              ((split_go is_space true s).1 :: (split_go is_space true s).2))
    = word_starts true s.
Proof.
  induction s as [|c s [IHf IHt]]; [done|].
  cbn [split_go word_starts]. destruct (is_space c).
  - split; [|done]. by destruct (split_go is_space true s).
  - destruct (split_go is_space false s) as [t r]; cbn [fst snd] in *.
    split; [done|]. rewrite filter_cons_True by done.
    cbn [length]. by rewrite IHf.
Qed.

Lemma split_go_head s :
  ((if nonempty (split_go is_space false s).1 then 1 else 0)
   + word_starts false s)%nat = word_starts true s.
Proof.
  destruct s as [|c s]; [done|].
  cbn [split_go word_starts]. destruct (is_space c); [done|].
  by destruct (split_go is_space false s).
Qed.

Lemma split_ws_words s :
  length (filter (λ w, nonempty w = true) (split_ws s)) = word_count s.
Proof.
  unfold split_ws, split_on, word_count.
  rewrite <- split_go_head. destruct (split_go_words s) as [Hf _].
  destruct (split_go is_space false s) as [t r]; cbn [fst snd] in *.
  rewrite filter_cons. destruct (decide (nonempty t = true)) as [E|E].
  - rewrite E. cbn [length]. by rewrite Hf.
  - apply not_true_is_false in E. rewrite E. by rewrite Hf.
Qed.

End SplitFacts.

(** ** Speech rate *)

(** C4. For a non-empty transcription and a positive duration,
    [calculateSpeechRate] is the number of words (whitespace-delimited
    non-empty tokens) divided by the duration in minutes; for an empty or null
    transcription, or a duration that is zero or negative, it is 0. *)
Theorem calculateSpeechRate_spec (transcription : option string) (d : Q) :
  (falsy transcription = false → 0 < d →
   calculateSpeechRate transcription d
   == inject_Z (Z.of_nat (word_count (default EmptyString transcription)))
      / (d / 60))
  ∧ (falsy transcription = true ∨ d <= 0 →
     calculateSpeechRate transcription d = 0).
Proof.
  unfold calculateSpeechRate. split.
  - intros -> Hd. simpl.
    destruct (Qle_bool d 0) eqn:E.
    + apply Qle_bool_iff in E. lra.
    + by rewrite split_ws_words.
  - intros [-> | Hd]; [done|].
    apply Qle_bool_iff in Hd. rewrite Hd. by rewrite orb_true_r.
Qed.

Lemma calculateSpeechRate_spec_witness :
  calculateSpeechRate (Some "one two  three"%string) 90 == 3 / (90 / 60)
  ∧ calculateSpeechRate (Some "one two  three"%string) 0 = 0
  ∧ calculateSpeechRate (Some ""%string) 90 = 0
  ∧ calculateSpeechRate None 90 = 0.
Proof.
  split; [|split; [|split]].
  - apply (proj1 (calculateSpeechRate_spec (Some "one two  three"%string) 90));
      [reflexivity | reflexivity].
  - apply (proj2 (calculateSpeechRate_spec (Some "one two  three"%string) 0)).
    right. discriminate.
  - apply (proj2 (calculateSpeechRate_spec (Some ""%string) 90)).
    left. reflexivity.
  - apply (proj2 (calculateSpeechRate_spec None 90)). left. reflexivity.
Defined.

(** ** Hesitations *)

(** C8. [countHesitations] is case-insensitive: a text and its lower-case
    form have the same count, which is the number of whitespace-delimited
    tokens of the text whose lower-case form is in the hesitation lexicon; "UM"
    and "um" count the same. *)
Theorem countHesitations_case_insensitive (s : string) :
  countHesitations (Some s) = countHesitations (Some (toLowerCase s))
  ∧ countHesitations (Some s)
    = length (filter (λ w, toLowerCase w ∈ hesitationWords) (split_ws s))
  ∧ countHesitations (Some "UM"%string) = countHesitations (Some "um"%string).
Proof.
  split; [|split].
  - unfold countHesitations. rewrite falsy_toLowerCase. simpl.
    by rewrite toLowerCase_idemp.
  - unfold countHesitations. destruct s as [|c s]; [by vm_compute|].
    cbn [falsy default]. rewrite split_ws_toLowerCase.
    apply length_filter_fmap.
  - by vm_compute.
Qed.

(** ** Null and empty transcriptions *)

(** C5 (amended). The six text counters are functions of their arguments
    alone and return 0 for a null or empty transcription.
    [calculateSemanticAnomaly] is different: whatever the transcription, null
    and empty included, it does not look at it, consumes one random draw and
    returns 0.1 plus 0.2 times that draw, a value from 0.1 to 0.3 and so
    never 0. *)
Theorem linguistic_features_null_or_empty (transcription : option string) :
  (falsy transcription = true →
   (∀ d, calculateSpeechRate transcription d = 0)
   ∧ countHesitations transcription = 0%nat
   ∧ countPauses transcription = 0%nat
   ∧ countVagueWords transcription = 0%nat
   ∧ detectIncompleteSentences transcription = 0%nat
   ∧ countLostWords transcription = 0%nat)
  ∧ (∀ g, (calculateSemanticAnomaly transcription g).1
          = 0.1 + draws g (next g) * 0.2
          ∧ (calculateSemanticAnomaly transcription g).2 = (Math_random g).2
          ∧ (valid_rng g →
             0.1 <= (calculateSemanticAnomaly transcription g).1 <= 0.3
             ∧ ¬ (calculateSemanticAnomaly transcription g).1 == 0)).
Proof.
  split.
  - intros Hf.
    unfold calculateSpeechRate, countHesitations, countPauses, countVagueWords,
      detectIncompleteSentences, countLostWords.
    rewrite Hf. by repeat split.
  - intros g. unfold calculateSemanticAnomaly, Math_random. cbn [fst snd].
    split; [done|]. split; [done|].
    intros Hg. destruct (Hg (next g)). split; [lra|]. intros E. lra.
Qed.

Lemma linguistic_features_null_or_empty_witness :
  (countHesitations None = 0%nat ∧ countLostWords None = 0%nat)
  ∧ (countPauses (Some ""%string) = 0%nat
     ∧ detectIncompleteSentences (Some ""%string) = 0%nat)
  ∧ 0.1 <= (calculateSemanticAnomaly (Some "So I went and"%string)
              (rng_of_list [0.5] 0)).1 <= 0.3.
Proof.
  split; [|split].
  - pose proof (proj1 (linguistic_features_null_or_empty None) eq_refl) as H.
    split; apply H.
  - pose proof (proj1 (linguistic_features_null_or_empty (Some ""%string))
                  eq_refl) as H.
    split; apply H.
  - apply (proj2 (linguistic_features_null_or_empty
                    (Some "So I went and"%string)) (rng_of_list [0.5] 0)).
    intros n. destruct n as [|[|n]]; split; by vm_compute.
Defined.

(** C5, as stated, fails for [calculateSemanticAnomaly]: on a null
    transcription it returns 0.2 rather than 0 when the draw is 0.5, and two
    successive calls on the same empty transcription return 0.1 and 0.2. *)
Lemma calculateSemanticAnomaly_not_zero_not_pure :
  ¬ (calculateSemanticAnomaly None (rng_of_list [0.5] 0)).1 == 0
  ∧ ¬ (calculateSemanticAnomaly (Some ""%string) (rng_of_list [0; 0.5] 0)).1
      == (calculateSemanticAnomaly (Some ""%string)
            (calculateSemanticAnomaly (Some ""%string)
               (rng_of_list [0; 0.5] 0)).2).1.
Proof. split; by vm_compute. Qed.

(** ** Incomplete sentences *)

(** A sentence that starts with a whitespace character splits into more
    pieces than it has words: the piece before the leading whitespace is
    empty. *)
Lemma split_ws_leading_space c s :
  is_space c = true →
  (word_count (String c s) < length (split_ws (String c s)))%nat.
Proof.
  intros Hc. rewrite <- split_ws_words.
  unfold split_ws, split_on. cbn [split_go]. rewrite Hc.
  destruct (split_go is_space true s) as [t r].
  rewrite filter_cons_False by (by intros [=]).
  pose proof (length_filter (λ w, nonempty w = true) (t :: r)) as Hle.
  cbn [length] in *. lia.
Qed.

(** C7. On "Hello there. Go home." the code counts one incomplete sentence
    where the specification counts two: the second sentence, " Go home", has
    two words but splits into three pieces, the first one empty.  The two
    examples of the specification hold on the code. *)
Theorem detectIncompleteSentences_leading_space :
  detectIncompleteSentences (Some "Hello there. Go home."%string) = 1%nat
  ∧ detectIncompleteSentences_spec "Hello there. Go home." = 2%nat
  ∧ split_ws " Go home" = [""; "Go"; "home"]%string
  ∧ word_count " Go home" = 2%nat
  ∧ detectIncompleteSentences (Some "I went to the store and"%string) = 1%nat
  ∧ detectIncompleteSentences (Some "I went to the store."%string) = 0%nat.
Proof. repeat split; by vm_compute. Qed.

(** ** Normalisation *)

(** C10. [normalizeFeatures] returns its argument unchanged. *)
Theorem normalizeFeatures_identity (features : option NumObject) :
  normalizeFeatures features = features.
Proof. reflexivity. Qed.

(** ** Audio quality *)

Lemma checkAudioQuality_issues {File} (audioFile : File) (g : Rng) :
  (length (q_issues (checkAudioQuality audioFile g).1) <= 3)%nat
  ∧ q_qualityScore (checkAudioQuality audioFile g).1
    = qualityScore (q_issues (checkAudioQuality audioFile g).1).
Proof.
  unfold checkAudioQuality, Math_random; simpl.
  repeat match goal with |- context [Qgtb ?a ?b] => destruct (Qgtb a b) end;
    simpl; split; (lia || done).
Qed.

(** C9. The quality score returned by [checkAudioQuality] is
    min(1, max(0, 0.95 - 0.2 * number of issues)); it lies in [0, 1] and is
    0.95 when no issue is detected. *)
Theorem checkAudioQuality_score {File} (audioFile : File) (g : Rng) :
  q_qualityScore (checkAudioQuality audioFile g).1
  == Qmin 1 (Qmax 0 (0.95 - 0.2 * inject_Z (Z.of_nat
       (length (q_issues (checkAudioQuality audioFile g).1)))))
  ∧ 0 <= q_qualityScore (checkAudioQuality audioFile g).1 <= 1
  ∧ (q_issues (checkAudioQuality audioFile g).1 = [] →
     q_qualityScore (checkAudioQuality audioFile g).1 == 0.95).
Proof.
  destruct (checkAudioQuality_issues audioFile g) as [_ ->].
  generalize (q_issues (checkAudioQuality audioFile g).1). intros issues.
  unfold qualityScore. split; [|split].
  - by rewrite (Qmult_comm 0.2).
  - split.
    + apply Q.min_glb; [lra | apply Q.le_max_l].
    + apply Q.le_min_l.
  - intros ->. by vm_compute.
Qed.

Lemma checkAudioQuality_score_witness :
  q_qualityScore (checkAudioQuality tt (rng_of_list [] 0)).1 == 0.95.
Proof.
  apply (checkAudioQuality_score tt (rng_of_list [] 0)). reflexivity.
Defined.

(** ** Risk score *)

Section RiskScore.

Lemma Qgtb_lt x y : Qgtb x y = true ↔ y < x.
Proof.
  unfold Qgtb. rewrite negb_true_iff, <- not_true_iff_false, Qle_bool_iff.
  split; [apply Qnot_le_lt | apply Qlt_not_le].
Qed.

Lemma Qgtb_le x y : Qgtb x y = false ↔ x <= y.
Proof. unfold Qgtb. by rewrite negb_false_iff, Qle_bool_iff. Qed.


Lemma truthy_neq w : truthy w = true ↔ ¬ w == 0.
Proof.
  unfold truthy. rewrite negb_true_iff, <- not_true_iff_false.
  by rewrite Qeq_bool_iff.
Qed.


(** Once the accumulators are not numbers they stay so. *)
Lemma fold_left_risk_step_NotNumbers weights entries :
  fold_left (risk_step weights) entries NotNumbers = NotNumbers.
Proof.
  induction entries as [|kv entries IH]; [done|].
  cbn [fold_left].
  replace (risk_step weights NotNumbers kv) with NotNumbers; [done|].
  unfold risk_step. destruct (get_property weights kv.1) as [w| |]; [|done..].
  by destruct (truthy w).
Qed.





(** The score is 0 as soon as one lookup finds an inherited member. *)
Lemma calculateRiskScore_inherited (features weights : NumObject) k :
  is_Some (features !! k) →
  get_property weights k = InheritedMember →
  calculateRiskScore (Some features) (Some weights) = 0.
Proof.
  intros [v Hk] Hget. unfold calculateRiskScore.
  apply elem_of_map_to_list in Hk.
  assert (∀ acc, fold_left (risk_step weights) (map_to_list features) acc
                 = NotNumbers) as ->; [|done].
  induction (map_to_list features) as [|kv l IH]; intros acc.
  - by apply not_elem_of_nil in Hk.
  - cbn [fold_left]. apply elem_of_cons in Hk as [<-|Hin]; [|by apply IH].
    unfold risk_step at 2. cbn [fst]. rewrite Hget.
    apply fold_left_risk_step_NotNumbers.
Qed.


End RiskScore.




(** ** The orchestrator: what one file and one batch do *)

Section OrchestratorFacts.

Import Orchestrator.

Context {W : Type}.
Variable preprocess_stage :
  AudioFile -> W -> StageResult PreprocessData * W.
Variable transcribe_stage :
  AudioFile -> option string -> W -> StageResult TranscriptionData * W.
Variable extract_stage :
  AudioFile -> string -> W -> StageResult FeaturesData * W.
Variable analysis_stage :
  NumObject -> Settings -> W -> StageResult AnalysisData * W.

Let file_body :=
  processFile preprocess_stage transcribe_stage extract_stage analysis_stage.
Let loop :=
  processFiles preprocess_stage transcribe_stage extract_stage analysis_stage.
Let pipeline :=
  Orchestrator.processAudioPipeline
    preprocess_stage transcribe_stage extract_stage analysis_stage.

#[local] Abbreviation stages_succeed :=
  (Orchestrator.stages_succeed
     preprocess_stage transcribe_stage extract_stage analysis_stage).
#[local] Abbreviation stage_fails :=
  (Orchestrator.stage_fails
     preprocess_stage transcribe_stage extract_stage analysis_stage).
#[local] Abbreviation files_succeed :=
  (Orchestrator.files_succeed
     preprocess_stage transcribe_stage extract_stage analysis_stage).

Lemma batch_updates_S n i k :
  batch_updates n i (S k) = file_updates n i ++ batch_updates n (S i) k.
Proof. reflexivity. Qed.

Lemma file_body_succeeds n settings i f st tr fe an w' :
  stages_succeed settings f (world st) tr fe an w' →
  file_body n settings i f st
  = (Done (mkResult (result_id i) (name f) (an_risk_status an)
             (an_confidence an) (an_key_indicators an) (fe_features fe)
             (tr_transcription tr) (an_analysis_notes an)),
     mkRun w' (log st ++ file_updates n i)).
Proof.
  intros [d1 w1 tr' w2 fe' w3 an' w4 H1 H2 H3 H4].
  unfold file_body, processFile, mbind, M_bind, bind, await, updateProgress,
    mret, M_ret, ret, throw.
  cbn [world log]. rewrite H1. cbn [world log]. rewrite H2. cbn [world log].
  rewrite H3. cbn [world log]. rewrite H4. cbn [world log].
  by rewrite <- !(assoc_L (++)).
Qed.

Lemma file_body_fails n settings i f st k e w' :
  stage_fails settings f (world st) k e w' →
  file_body n settings i f st
  = (Thrown e, mkRun w' (log st ++ take (2 * k - 1) (file_updates n i))).
Proof.
  unfold file_body, processFile, mbind, M_bind, bind, await, updateProgress,
    mret, M_ret, ret, throw.
  intros [e' w1 H1 | d1 w1 e' w2 H1 H2 | d1 w1 tr w2 e' w3 H1 H2 H3
         | d1 w1 tr w2 fe w3 e' w4 H1 H2 H3 H4];
    cbn [world log]; rewrite H1; cbn [world log];
    try (rewrite H2; cbn [world log]);
    try (rewrite H3; cbn [world log]);
    try (rewrite H4; cbn [world log]);
    by rewrite <- ?(assoc_L (++)).
Qed.

(** What the stages do for [f] decides what the body of the loop does. *)
Lemma stages_cases settings f w :
  (∃ tr fe an w', stages_succeed settings f w tr fe an w')
  ∨ (∃ k e w', (1 <= k <= 4)%nat ∧ stage_fails settings f w k e w').
Proof.
  destruct (preprocess_stage f w) as [[d1|e] w1] eqn:H1;
    [|right; exists 1%nat, e, w1; split; [lia | by constructor]].
  destruct (transcribe_stage f (transcriptionModel settings) w1)
    as [[tr|e] w2] eqn:H2;
    [|right; exists 2%nat, e, w2; split; [lia | by econstructor]].
  destruct (extract_stage f (tr_transcription tr) w2) as [[fe|e] w3] eqn:H3;
    [|right; exists 3%nat, e, w3; split; [lia | by econstructor]].
  destruct (analysis_stage (fe_features fe) settings w3) as [[an|e] w4] eqn:H4;
    [|right; exists 4%nat, e, w4; split; [lia | by econstructor]].
  left. exists tr, fe, an, w4. by econstructor.
Qed.

(** The loop over files that all succeed carries on with the rest of the
    batch, one result and nine updates per file later. *)
Lemma loop_prefix n settings pre rest w' :
  ∀ i results st,
    files_succeed settings pre (world st) w' →
    ∃ rs, length rs = length pre
          ∧ loop n settings i (pre ++ rest) results st
            = loop n settings (i + length pre) rest (results ++ rs)
                (mkRun w' (log st ++ batch_updates n i (length pre))).
Proof.
  induction pre as [|f pre IH]; intros i results st Hok.
  - inversion Hok; subst. exists []. split; [done|].
    rewrite Nat.add_0_r, !app_nil_r. cbn [app length]. by destruct st.
  - inversion Hok as [|f' files w tr fe an w1 w2 Hf Hrest]; subst.
    cbn [app]. unfold loop. cbn [processFiles].
    unfold mbind at 1, M_bind at 1, bind at 1.
    fold file_body. rewrite (file_body_succeeds _ _ _ _ _ _ _ _ _ Hf).
    fold loop.
    destruct (IH (S i) (results ++ [mkResult (result_id i) (name f)
                (an_risk_status an) (an_confidence an)
                (an_key_indicators an) (fe_features fe)
                (tr_transcription tr) (an_analysis_notes an)])
                (mkRun w1 (log st ++ file_updates n i)) Hrest)
      as (rs & Hlen & ->).
    eexists (_ :: rs). split; [cbn; by rewrite Hlen|].
    cbn [world log length]. rewrite batch_updates_S.
    rewrite <- !(assoc_L (++)). cbn [app].
    by replace (S i + length pre)%nat with (i + S (length pre))%nat by lia.
Qed.

(** A run of the loop that completes has logged the nine updates of each
    file, in order, and pushed one result per file. *)
Lemma loop_done n settings files :
  ∀ i results st rs st',
    loop n settings i files results st = (Done rs, st') →
    log st' = log st ++ batch_updates n i (length files)
    ∧ length rs = (length results + length files)%nat.
Proof.
  induction files as [|f files IH]; intros i results st rs st' Hrun.
  - cbn in Hrun. injection Hrun as <- <-.
    unfold batch_updates. cbn. rewrite app_nil_r. split; [done | lia].
  - unfold loop in Hrun. cbn [processFiles] in Hrun.
    unfold mbind at 1, M_bind at 1, bind at 1 in Hrun.
    fold file_body in Hrun. fold loop in Hrun.
    destruct (stages_cases settings f (world st))
      as [(tr & fe & an & w' & Hok) | (k & e & w' & _ & Hfail)].
    + rewrite (file_body_succeeds n settings i f st tr fe an w' Hok) in Hrun.
      apply IH in Hrun as [Hlog Hlen]. cbn [log] in Hlog.
      cbn [length]. rewrite batch_updates_S, Hlog, Hlen, length_app.
      rewrite <- !(assoc_L (++)). cbn [length]. split; [done | lia].
    + rewrite (file_body_fails n settings i f st k e w' Hfail) in Hrun.
      discriminate.
Qed.

Lemma full_share (a b : Q) : 0 < b → (a / b * 100 == 100 ↔ a == b).
Proof.
  intros Hb. split; intros H.
  - transitivity (a / b * 100 * (b / 100)); [field; lra|].
    rewrite H. field.
  - rewrite H. field. lra.
Qed.

(** The progress of the last update of file [i]: 100 for the last file of
    the batch only. *)
Lemma compiling_progress_full n i :
  (i < n)%nat →
  (u_progress (compiling i n) == 100 ↔ S i = n).
Proof.
  intros Hi. unfold compiling. cbn [u_progress].
  rewrite full_share.
  - split.
    + intros E. apply (proj1 (inject_Z_injective _ _)) in E. lia.
    + intros <-. by replace (i + 1)%nat with (S i) by lia.
  - change 0 with (inject_Z 0). rewrite <- Zlt_Qlt. lia.
Qed.

(** C2. If the files before [f] are processed with every stage succeeding
    and stage [k] then fails for [f] with the error [e], the pipeline returns
    a failure whose message ends with [e] and which carries no result; the
    stages' state is the one the failing call left and the last update logged
    is the entry into stage [k] for [f]: nothing runs for [f] after the
    failing stage, nor for the files after [f]. *)
Theorem pipeline_fail_fast pre f post settings st w1 k e w2 :
  files_succeed settings pre (world st) w1 →
  stage_fails settings f w1 k e w2 →
  pipeline (pre ++ f :: post) settings st
  = (PipelineFailure ("Error in audio processing pipeline: " ++ e)%string,
     mkRun w2
       (log st
        ++ batch_updates (length (pre ++ f :: post)) 0 (length pre)
        ++ take (2 * k - 1)
             (file_updates (length (pre ++ f :: post)) (length pre)))).
Proof.
  intros Hpre Hfail. unfold pipeline, Orchestrator.processAudioPipeline.
  fold loop. set (n := length (pre ++ f :: post)).
  destruct (loop_prefix n settings pre (f :: post) w1 0 [] st Hpre)
    as (rs & _ & ->).
  unfold loop. cbn [processFiles].
  unfold mbind at 1, M_bind at 1, bind at 1. fold file_body.
  rewrite (file_body_fails n settings (0 + length pre) f
             (mkRun w1 (log st ++ batch_updates n 0 (length pre))) k e w2 Hfail).
  cbn [log plus]. by rewrite <- !(assoc_L (++)).
Qed.

(** C3 (amended). When the pipeline succeeds it has returned one result
    per file and logged, for each file in turn, nine updates: for each of
    the stages 1 to 4 an entry with progress 0 and a completion with progress
    100, then one update for stage 5 whose progress is the share of the batch
    done so far, [(i + 1) / n * 100].  Stage 5 has no entry at progress 0,
    and its progress is 100 for the last file of the batch only. *)
Theorem pipeline_progress files settings st results st' :
  pipeline files settings st = (PipelineSuccess results, st') →
  length results = length files
  ∧ log st' = log st ++ batch_updates (length files) 0 (length files)
  ∧ ∀ i ev0, (i < length files)%nat →
      (λ ev, (currentStep ev, progress ev))
        <$> observed ev0 (file_updates (length files) i)
      = [ (1%nat, 0); (1%nat, 100); (2%nat, 0); (2%nat, 100);
          (3%nat, 0); (3%nat, 100); (4%nat, 0); (4%nat, 100);
          (5%nat, inject_Z (Z.of_nat (i + 1))
                  / inject_Z (Z.of_nat (length files)) * 100) ]
      ∧ (inject_Z (Z.of_nat (i + 1))
         / inject_Z (Z.of_nat (length files)) * 100 == 100
         ↔ S i = length files).
Proof.
  unfold pipeline, Orchestrator.processAudioPipeline. fold loop.
  destruct (loop _ settings 0 files [] st) as [[rs|e] st1] eqn:Hrun;
    [|discriminate].
  intros [= <- <-]. apply loop_done in Hrun as [Hlog Hlen].
  split; [done|]. split; [done|].
  intros i ev0 Hi. split; [done|].
  apply (compiling_progress_full _ _ Hi).
Qed.

End OrchestratorFacts.

(** ** Runs with concrete stages *)

Lemma pipeline_fail_fast_witness :
  (Orchestrator.processAudioPipeline
     (preprocessExcept "c.wav") transcribeAudio extractFeatures runAnalysisModel
     [mkFile "a.wav"; mkFile "b.wav"; mkFile "c.wav"; mkFile "d.wav"]
     demoSettings (Orchestrator.mkRun sampleDraws [])).1
  = PipelineFailure
      "Error in audio processing pipeline: Error preprocessing audio: corrupt file".
Proof.
  change [mkFile "a.wav"; mkFile "b.wav"; mkFile "c.wav"; mkFile "d.wav"]
    with ([mkFile "a.wav"; mkFile "b.wav"] ++ mkFile "c.wav" :: [mkFile "d.wav"]).
  erewrite (pipeline_fail_fast
              (preprocessExcept "c.wav") transcribeAudio extractFeatures
              runAnalysisModel
              [mkFile "a.wav"; mkFile "b.wav"] (mkFile "c.wav") [mkFile "d.wav"]
              demoSettings (Orchestrator.mkRun sampleDraws []) _ 1).
  - reflexivity.
  - eapply Orchestrator.files_cons;
      [eapply Orchestrator.stages_ok; vm_compute; reflexivity|].
    eapply Orchestrator.files_cons;
      [eapply Orchestrator.stages_ok; vm_compute; reflexivity|].
    apply Orchestrator.files_nil.
  - apply Orchestrator.fails_preprocess. vm_compute. reflexivity.
Defined.

Lemma pipeline_progress_witness :
  Orchestrator.log
    (Orchestrator.processAudioPipeline
       preprocessAudio transcribeAudio extractFeatures runAnalysisModel
       [mkFile "a.wav"; mkFile "b.wav"] demoSettings
       (Orchestrator.mkRun sampleDraws [])).2
  = Orchestrator.file_updates 2 0 ++ Orchestrator.file_updates 2 1.
Proof.
  refine (proj1 (proj2
    (pipeline_progress
       preprocessAudio transcribeAudio extractFeatures runAnalysisModel
       [mkFile "a.wav"; mkFile "b.wav"] demoSettings
       (Orchestrator.mkRun sampleDraws [])
       (match (Orchestrator.processAudioPipeline
                 preprocessAudio transcribeAudio extractFeatures
                 runAnalysisModel [mkFile "a.wav"; mkFile "b.wav"]
                 demoSettings (Orchestrator.mkRun sampleDraws [])).1 with
        | PipelineSuccess results => results
        | PipelineFailure _ => []
        end)
       _ _))).
  vm_compute. reflexivity.
Defined.

(** C3, as stated, fails on a batch of two files: the updates of the first
    file end with stage 5 at progress 50, so no state the caller observes for
    that file has [currentStep = 5] and [progress = 100], and none has
    [currentStep = 5] and [progress = 0]. *)
Lemma first_file_stops_short_of_100 :
  (∃ results,
     (processAudioPipeline [mkFile "a.wav"; mkFile "b.wav"]
        demoSettings sampleDraws).1 = PipelineSuccess results)
  ∧ (λ ev, (currentStep ev, Qred (progress ev)))
      <$> observed initialProcessing
            (Orchestrator.log
               (Orchestrator.processFile
                  preprocessAudio transcribeAudio extractFeatures
                  runAnalysisModel 2 demoSettings 0 (mkFile "a.wav")
                  (Orchestrator.mkRun sampleDraws [])).2)
    = [ (1%nat, 0); (1%nat, 100); (2%nat, 0); (2%nat, 100);
        (3%nat, 0); (3%nat, 100); (4%nat, 0); (4%nat, 100); (5%nat, 50) ]
  ∧ existsb (λ ev, (currentStep ev =? 5)%nat
                   && (Qeq_bool (progress ev) 100 || Qeq_bool (progress ev) 0))
      (observed initialProcessing
         (take 9 (processAudioPipeline [mkFile "a.wav"; mkFile "b.wav"]
                    demoSettings sampleDraws).2))
    = false.
Proof.
  split; [|split].
  - eexists. vm_compute. reflexivity.
  - vm_compute. reflexivity.
  - vm_compute. reflexivity.
Qed.

(** ** The analysis model *)

(** The label and the draws consumed depend on the first draw alone: neither
    the features nor the settings are looked at. *)
Lemma runAnalysisModel_label features settings g :
  labelledAtRisk (runAnalysisModel features settings g).1
  = Qgtb (draws g (next g)) 0.7
  ∧ (runAnalysisModel features settings g).2
    = mkRng (draws g)
        (if Qgtb (draws g (next g)) 0.7 then 3 + next g else 2 + next g).
Proof.
  unfold runAnalysisModel, Math_random. cbn [draws next].
  by destruct (Qgtb (draws g (next g)) 0.7).
Qed.

Lemma analyseBatch_labels batch s1 s2 :
  ∀ g, labelledAtRisk <$> (analyseBatch batch s1 g).1
       = labelledAtRisk <$> (analyseBatch batch s2 g).1
       ∧ (analyseBatch batch s1 g).2 = (analyseBatch batch s2 g).2.
Proof.
  induction batch as [|features batch IH]; intros g; [done|].
  cbn [analyseBatch].
  destruct (runAnalysisModel_label features s1 g) as [L1 G1].
  destruct (runAnalysisModel_label features s2 g) as [L2 G2].
  destruct (runAnalysisModel features s1 g) as [r1 g1].
  destruct (runAnalysisModel features s2 g) as [r2 g2].
  cbn [fst snd] in *. subst g1 g2.
  destruct (IH (mkRng (draws g)
                  (if Qgtb (draws g (next g)) 0.7 then 3 + next g
                   else 2 + next g)))%nat as [IHl IHg].
  destruct (analyseBatch batch s1 _) as [rs1 g1'].
  destruct (analyseBatch batch s2 _) as [rs2 g2'].
  cbn [fst snd] in *. rewrite !fmap_cons, L1, L2, IHl. by split.
Qed.

Lemma atRiskFraction_labels rs1 rs2 :
  labelledAtRisk <$> rs1 = labelledAtRisk <$> rs2 →
  atRiskFraction rs1 = atRiskFraction rs2.
Proof.
  intros H. unfold atRiskFraction.
  assert (length rs1 = length rs2) as ->.
  { by rewrite <- (length_fmap labelledAtRisk rs1), H, length_fmap. }
  assert (length (filter (λ r, labelledAtRisk r = true) rs1)
          = length (filter (λ r, labelledAtRisk r = true) rs2)) as ->; [|done].
  revert rs2 H. induction rs1 as [|r1 rs1 IH]; intros [|r2 rs2] H;
    try done.
  rewrite !fmap_cons in H. injection H as Hr Hrs.
  rewrite !filter_cons, Hr.
  destruct (decide (labelledAtRisk r2 = true)); cbn [length];
    by rewrite (IH _ Hrs).
Qed.

(** C6 (amended). For a fixed batch and fixed random draws, the fraction of
    the files that [runAnalysisModel] labels at risk is the same whatever the
    settings, so it is the same for two contamination values [c1 <= c2] (and
    in that sense not decreasing): a file is labelled at risk exactly when
    the first draw of its call exceeds 0.7; the contamination and the
    features are not looked at. *)
Theorem atRiskFraction_ignores_contamination
    (batch : list NumObject) (s1 s2 : Settings) (g : Rng) :
  atRiskFraction (analyseBatch batch s1 g).1
  = atRiskFraction (analyseBatch batch s2 g).1
  ∧ atRiskFraction (analyseBatch batch s1 g).1
    <= atRiskFraction (analyseBatch batch s2 g).1
  ∧ ∀ features,
      labelledAtRisk (runAnalysisModel features s1 g).1
      = Qgtb (draws g (next g)) 0.7.
Proof.
  assert (atRiskFraction (analyseBatch batch s1 g).1
          = atRiskFraction (analyseBatch batch s2 g).1) as E.
  { apply atRiskFraction_labels, analyseBatch_labels. }
  split; [done|]. split; [rewrite E; apply Qle_refl|].
  intros features. apply runAnalysisModel_label.
Qed.

(** C6, as stated, fails across runs: with contamination 0.1 a run whose
    first draw is 0.9 labels the only file of the batch at risk (fraction 1),
    and with contamination 0.5 a run whose first draw is 0.1 labels it normal
    (fraction 0). *)
Lemma atRiskFraction_not_monotone :
  contamination (isolationForest 0.1) <= contamination (isolationForest 0.5)
  ∧ atRiskFraction
      (analyseBatch [sampleFeatures] (isolationForest 0.1)
         (rng_of_list [0.9] 0)).1 == 1
  ∧ atRiskFraction
      (analyseBatch [sampleFeatures] (isolationForest 0.5)
         (rng_of_list [0.1] 0)).1 == 0
  ∧ ¬ atRiskFraction
        (analyseBatch [sampleFeatures] (isolationForest 0.1)
           (rng_of_list [0.9] 0)).1
      <= atRiskFraction
           (analyseBatch [sampleFeatures] (isolationForest 0.5)
              (rng_of_list [0.1] 0)).1.
Proof. repeat split; by vm_compute. Qed.

(** ** Coverage of the orchestrator theorems *)

Section Coverage.

Import Orchestrator.

Context {W : Type}.
Variable preprocess_stage :
  AudioFile -> W -> StageResult PreprocessData * W.
Variable transcribe_stage :
  AudioFile -> option string -> W -> StageResult TranscriptionData * W.
Variable extract_stage :
  AudioFile -> string -> W -> StageResult FeaturesData * W.
Variable analysis_stage :
  NumObject -> Settings -> W -> StageResult AnalysisData * W.

#[local] Abbreviation stages_succeed :=
  (Orchestrator.stages_succeed
     preprocess_stage transcribe_stage extract_stage analysis_stage).
#[local] Abbreviation stage_fails :=
  (Orchestrator.stage_fails
     preprocess_stage transcribe_stage extract_stage analysis_stage).
#[local] Abbreviation files_succeed :=
  (Orchestrator.files_succeed
     preprocess_stage transcribe_stage extract_stage analysis_stage).

(** Every batch either goes through with all stages succeeding or has a
    first file for which a stage fails. *)
Lemma batch_cases settings files :
  ∀ w,
    (∃ w', files_succeed settings files w w')
    ∨ (∃ pre f post w1 k e w2,
         files = pre ++ f :: post
         ∧ files_succeed settings pre w w1
         ∧ stage_fails settings f w1 k e w2).
Proof.
  induction files as [|f files IH]; intros w.
  - left. exists w. constructor.
  - destruct (stages_cases preprocess_stage transcribe_stage extract_stage
                analysis_stage settings f w)
      as [(tr & fe & an & w1 & Hok) | (k & e & w1 & _ & Hfail)].
    + destruct (IH w1) as [(w' & Hrest)
                          | (pre & f' & post & w2 & k & e & w3 & -> & Hpre & Hfail)].
      * left. exists w'. by econstructor.
      * right. exists (f :: pre), f', post, w2, k, e, w3.
        split; [done|]. split; [by econstructor | done].
    + right. exists [], f, files, w, k, e, w1.
      split; [done|]. split; [constructor | done].
Qed.

(** A batch whose files all succeed yields a success with one result per
    file. *)
Lemma pipeline_succeeds settings files st w' :
  files_succeed settings files (world st) w' →
  ∃ results,
    length results = length files
    ∧ Orchestrator.processAudioPipeline preprocess_stage transcribe_stage
        extract_stage analysis_stage files settings st
      = (PipelineSuccess results,
         mkRun w' (log st ++ batch_updates (length files) 0 (length files))).
Proof.
  intros Hok. unfold Orchestrator.processAudioPipeline.
  destruct (loop_prefix preprocess_stage transcribe_stage extract_stage
              analysis_stage (length files) settings files [] w' 0 [] st Hok)
    as (rs & Hlen & E).
  rewrite app_nil_r in E. rewrite E. exists rs. by split.
Qed.

End Coverage.

(** The demonstration stages never fail, so the pipeline built on them
    returns one result per file for every batch, whatever the draws. *)
Lemma demo_stages_succeed settings f g :
  ∃ tr fe an g',
    Orchestrator.stages_succeed preprocessAudio transcribeAudio extractFeatures
      runAnalysisModel settings f g tr fe an g'.
Proof.
  destruct (stages_cases preprocessAudio transcribeAudio extractFeatures
              runAnalysisModel settings f g)
    as [H | (k & e & g' & _ & Hfail)]; [done|].
  exfalso. inversion Hfail as [e' w1 H1 | d1 w1 e' w2 H1 H2
                              | d1 w1 tr w2 e' w3 H1 H2 H3
                              | d1 w1 tr w2 fe w3 e' w4 H1 H2 H3 H4]; subst.
  - discriminate H1.
  - discriminate H2.
  - discriminate H3.
  - unfold runAnalysisModel, Math_random in H4.
    destruct (Qgtb _ 0.7) in H4; discriminate H4.
Qed.

Lemma demo_pipeline_succeeds files settings g :
  ∃ results,
    (processAudioPipeline files settings g).1 = PipelineSuccess results
    ∧ length results = length files
    ∧ (processAudioPipeline files settings g).2
      = Orchestrator.batch_updates (length files) 0 (length files).
Proof.
  assert (∃ g', Orchestrator.files_succeed preprocessAudio transcribeAudio
                  extractFeatures runAnalysisModel settings files g g')
    as [g' Hok].
  { revert g. induction files as [|f files IH]; intros g.
    - exists g. constructor.
    - destruct (demo_stages_succeed settings f g) as (tr & fe & an & g1 & H).
      destruct (IH g1) as [g' Hrest]. exists g'. by econstructor. }
  destruct (pipeline_succeeds _ _ _ _ settings files
              (Orchestrator.mkRun g []) g' Hok) as (results & Hlen & E).
  exists results. unfold processAudioPipeline. rewrite E. by repeat split.
Qed.

(** * Further properties of the sources *)

(** ** Words, hesitations and vague words *)

Lemma word_starts_toLowerCase prev s :
  word_starts prev (toLowerCase s) = word_starts prev s.
Proof.
  revert prev. induction s as [|c s IH]; intros prev; [done|].
  cbn [toLowerCase word_starts]. rewrite is_space_lower_char.
  destruct (is_space c); by rewrite IH.
Qed.

(** X1. [countVagueWords] is case-insensitive: a text and its lower-case
    form have the same count, which is the number of whitespace-delimited
    tokens of the text whose lower-case form is in the vague-word lexicon. *)
Theorem countVagueWords_case_insensitive (s : string) :
  countVagueWords (Some s) = countVagueWords (Some (toLowerCase s))
  ∧ countVagueWords (Some s)
    = length (filter (λ w, toLowerCase w ∈ vagueWords) (split_ws s)).
Proof.
  split.
  - unfold countVagueWords. rewrite falsy_toLowerCase. simpl.
    by rewrite toLowerCase_idemp.
  - unfold countVagueWords. destruct s as [|c s]; [by vm_compute|].
    cbn [falsy default]. rewrite split_ws_toLowerCase.
    apply length_filter_fmap.
Qed.

Lemma length_filter_disjoint {A} (P Q R : A -> Prop)
    `{∀ x, Decision (P x)} `{∀ x, Decision (Q x)} `{∀ x, Decision (R x)}
    (l : list A) :
  (∀ x, P x → R x) → (∀ x, Q x → R x) → (∀ x, P x → Q x → False) →
  (length (filter P l) + length (filter Q l) <= length (filter R l))%nat.
Proof.
  intros HP HQ HPQ. induction l as [|x l IH]; [done|].
  rewrite !filter_cons.
  destruct (decide (P x)) as [p|np], (decide (Q x)) as [q|nq],
    (decide (R x)) as [r|nr]; cbn [length]; try lia.
  - destruct (HPQ x p q).
  - destruct (HPQ x p q).
  - destruct (nr (HP x p)).
  - destruct (nr (HQ x q)).
Qed.

(** X2. A hesitation is never a vague word and both are words: the
    hesitation count and the vague-word count of a text together never exceed
    its number of words. *)
Theorem hesitations_and_vague_words_le_words (s : string) :
  (countHesitations (Some s) + countVagueWords (Some s) <= word_count s)%nat.
Proof.
  unfold countHesitations, countVagueWords.
  destruct s as [|c s]; [by vm_compute|]. cbn [falsy default].
  unfold word_count. rewrite <- (word_starts_toLowerCase true).
  fold (word_count (toLowerCase (String c s))). rewrite <- split_ws_words.
  assert (Forall (λ w, nonempty w = true ∧ w ∉ vagueWords) hesitationWords)
    as Hh by (apply (bool_decide_unpack _); by vm_compute).
  assert (Forall (λ w, nonempty w = true) vagueWords)
    as Hv by (apply (bool_decide_unpack _); by vm_compute).
  rewrite Forall_forall in Hh. rewrite Forall_forall in Hv.
  apply length_filter_disjoint.
  - intros w Hw. by apply Hh.
  - intros w Hw. by apply Hv.
  - intros w Hw Hw'. by apply (Hh w Hw).
Qed.

(** ** Splitting on whitespace *)

Lemma split_go_pieces s :
  length (split_go is_space false s).2
  = (word_starts false s + (if ends_with_space s then 1 else 0))%nat
  ∧ S (length (split_go is_space true s).2)
    = (word_starts true s
       + (if negb (nonempty s) || ends_with_space s then 1 else 0))%nat.
Proof.
  induction s as [|c s [IHf IHt]]; [done|].
  assert (ends_with_space (String c s)
          = if nonempty s then ends_with_space s else is_space c) as ->
    by (by destruct s).
  assert (nonempty s = false → ends_with_space s = false) as Hne
    by (by destruct s).
  cbn [split_go word_starts nonempty negb orb].
  destruct (is_space c) eqn:Hc.
  - destruct (split_go is_space true s) as [t r]. cbn [snd length] in *.
    destruct (nonempty s); [|rewrite (Hne eq_refl) in *];
      cbn [negb orb] in *; split; lia.
  - destruct (split_go is_space false s) as [t r]. cbn [snd] in *.
    destruct (nonempty s); [|rewrite (Hne eq_refl) in *];
      cbn [negb orb] in *; split; lia.
Qed.

(** X3. The number of pieces of [s.split(/\s+/)] is the number of words of
    [s], plus one when [s] is empty or starts with whitespace, plus one when
    [s] ends with whitespace. *)
Theorem split_ws_length (s : string) :
  length (split_ws s)
  = (word_count s
     + (if negb (nonempty s) || starts_with_space s then 1 else 0)
     + (if ends_with_space s then 1 else 0))%nat.
Proof.
  unfold split_ws, split_on, word_count.
  destruct (split_go_pieces s) as [Hf _]. rewrite <- split_go_head.
  destruct s as [|c s]; [done|].
  cbn [split_go word_starts nonempty negb orb starts_with_space] in *.
  destruct (is_space c).
  - cbn [fst snd length nonempty] in *. lia.
  - destruct (split_go is_space false s) as [t r].
    cbn [fst snd length nonempty] in *. lia.
Qed.

(** ** Sentences *)

Lemma nonempty_trimEnd s : nonempty (trimEnd s) = negb (all_space s).
Proof.
  unfold all_space. induction s as [|c s IH]; [done|].
  cbn [trimEnd list_ascii_of_string forallb].
  destruct (trimEnd s); cbn [nonempty] in IH.
  - rewrite <- (negb_involutive (forallb _ _)), <- IH.
    by destruct (is_space c).
  - rewrite <- (negb_involutive (forallb _ _)), <- IH.
    by rewrite andb_false_r.
Qed.

Lemma all_space_trimStart s : all_space (trimStart s) = all_space s.
Proof.
  unfold all_space. induction s as [|c s IH]; [done|].
  cbn [trimStart]. destruct (is_space c) eqn:Hc; [|done].
  cbn [list_ascii_of_string forallb]. by rewrite Hc.
Qed.

Lemma all_space_word_starts s :
  (all_space s = true → ∀ prev, word_starts prev s = 0%nat)
  ∧ (all_space s = false → (0 < word_starts true s)%nat).
Proof.
  unfold all_space. induction s as [|c s [IH1 IH2]]; [done|].
  cbn [list_ascii_of_string forallb word_starts].
  destruct (is_space c); cbn [andb].
  - split; [intros H prev; by apply IH1 | done].
  - split; [done | lia].
Qed.

(** A segment passes the filter of [detectIncompleteSentences] exactly when
    it has a word. *)
Lemma nonempty_trim_words s :
  nonempty (trim s) = true ↔ (0 < word_count s)%nat.
Proof.
  unfold trim, word_count.
  rewrite nonempty_trimEnd, all_space_trimStart, negb_true_iff.
  destruct (all_space_word_starts s) as [H1 H2].
  destruct (all_space s); split; try done.
  rewrite (H1 eq_refl). lia.
  Qed.

Lemma fold_left_count {A} (P : A -> bool) (l : list A) :
  ∀ n, fold_left (λ count x, if P x then S count else count) l n
       = (n + length (filter (λ x, P x = true) l))%nat.
Proof.
  induction l as [|x l IH]; intros n; [cbn; lia|].
  cbn [fold_left]. rewrite IH, filter_cons.
  destruct (P x); [rewrite decide_True by done | rewrite decide_False by done];
    cbn [length]; lia.
Qed.

(** X4. [detectIncompleteSentences] never counts more sentences than the
    text has segments, between runs of '.', '!' and '?', that contain a
    word. *)
Theorem detectIncompleteSentences_le_sentences (s : string) :
  (detectIncompleteSentences (Some s)
   <= length (filter (λ seg, (0 < word_count seg)%nat)
                (split_on is_terminator s)))%nat.
Proof.
  unfold detectIncompleteSentences. destruct s as [|c s]; [cbn; lia|].
  cbn [falsy]. simpl default. rewrite fold_left_count.
  rewrite (list_filter_iff (λ seg, nonempty (trim seg) = true)
             (λ seg, (0 < word_count seg)%nat))
    by (intros seg; apply nonempty_trim_words).
  cbn [plus]. apply length_filter.
Qed.

(** ** Pattern counts *)

(** Patterns that agree at every position have the same number of
    matches. *)
Lemma count_matches_ext (m1 m2 : option ascii -> string -> option nat) s :
  (∀ prev t, m1 prev t = m2 prev t) →
  ∀ skip prev, count_matches m1 skip prev s = count_matches m2 skip prev s.
Proof.
  intros Hm. induction s as [|c s IH]; intros skip prev; [done|].
  cbn [count_matches]. destruct skip as [|k]; [|apply IH].
  rewrite Hm. destruct (m2 prev (String c s)) as [[|k]|]; by rewrite ?IH.
Qed.

(** When every match has at least [d + 1] characters and fits in the text, the
    matches, which do not overlap, take [d + 1] characters each. *)
Lemma count_matches_bound (m : option ascii -> string -> option nat) d :
  (∀ prev t n, m prev t = Some n → (d < n <= String.length t)%nat) →
  ∀ s skip prev,
    (skip <= String.length s)%nat →
    (S d * count_matches m skip prev s + skip <= String.length s)%nat.
Proof.
  intros Hm. induction s as [|c s IH]; intros skip prev Hskip.
  - cbn in *. lia.
  - cbn [count_matches String.length] in *. destruct skip as [|k].
    + destruct (m prev (String c s)) as [[|k]|] eqn:E.
      * pose proof (IH 0%nat (Some c)). lia.
      * apply Hm in E. cbn [String.length] in E.
        pose proof (IH k (Some c)). lia.
      * pose proof (IH 0%nat (Some c)). lia.
    + pose proof (IH k (Some c)). lia.
Qed.

Lemma run_length_le c s : (run_length c s <= String.length s)%nat.
Proof.
  induction s as [|d s IH]; [done|]. cbn [run_length String.length].
  destruct (Ascii.eqb c d); lia.
Qed.

Lemma pauseRegexShort_match prev t n :
  pauseRegexShort prev t = Some n → (1 < n <= String.length t)%nat.
Proof.
  unfold pauseRegexShort. cbn [first_match].
  pose proof (run_length_le "." t). pose proof (run_length_le "," t).
  pose proof (run_length_le "-" t).
  repeat match goal with
         | |- context [(2 <=? ?x)%nat] =>
             destruct (Nat.leb_spec 2 x)
         end; intros [= <-]; lia.
Qed.

(** The alternative [\.\.\.] of the pause pattern comes after [\.{2,}],
    which matches wherever it does. *)
Lemma pauseRegex_short prev t : pauseRegex prev t = pauseRegexShort prev t.
Proof.
  unfold pauseRegex, pauseRegexShort. cbn [first_match].
  destruct (2 <=? run_length "." t)%nat eqn:E1; [done|].
  destruct (2 <=? run_length "," t)%nat eqn:E2; [done|].
  destruct (String.prefix "..." t) eqn:Hp; [|done].
  exfalso. destruct t as [|a t]; [done|].
  cbn [String.prefix] in Hp. destruct (ascii_dec "." a) as [<-|]; [|done].
  destruct t as [|b t]; [done|].
  cbn [String.prefix] in Hp. destruct (ascii_dec "." b) as [<-|]; [|done].
  cbn [run_length] in E1. rewrite !Ascii.eqb_refl in E1. done.
Qed.

(** X5. Two pauses never overlap and each takes at least two characters:
    twice the pause count is at most the length of the text. *)
Theorem countPauses_bound (s : string) :
  (2 * countPauses (Some s) <= String.length s)%nat.
Proof.
  unfold countPauses. destruct s as [|c s]; [done|]. cbn [falsy].
  simpl default.
  rewrite (count_matches_ext pauseRegex pauseRegexShort _ pauseRegex_short).
  pose proof (count_matches_bound pauseRegexShort 1 pauseRegexShort_match
                (String c s) 0 None) as H.
  lia.
Qed.

(** X6. The third alternative of the pause pattern, [\.\.\.], is never the
    one that matches: [countPauses] is the number of matches of
    [/\.{2,}|,{2,}|--+/g]. *)
Theorem countPauses_without_ellipsis (transcription : option string) :
  countPauses transcription
  = if falsy transcription then 0%nat
    else count_matches pauseRegexShort 0 None
           (default EmptyString transcription).
Proof.
  unfold countPauses. destruct (falsy transcription); [done|].
  apply count_matches_ext, pauseRegex_short.
Qed.

Lemma is_word_lower_char c : is_word (lower_char c) = is_word c.
Proof. by destruct c as [[] [] [] [] [] [] [] []]. Qed.

Lemma boundary_lower a b :
  boundary (lower_char <$> a) (lower_char <$> b) = boundary a b.
Proof.
  unfold boundary.
  destruct a, b; cbn [fmap option_fmap option_map is_word_opt];
    by rewrite ?is_word_lower_char.
Qed.

Lemma first_char_toLowerCase s :
  first_char (toLowerCase s) = lower_char <$> first_char s.
Proof. by destruct s. Qed.

Lemma last_char_toLowerCase s :
  last_char (toLowerCase s) = lower_char <$> last_char s.
Proof.
  induction s as [|c s IH]; [done|]. cbn [toLowerCase last_char].
  destruct s; [done|]. apply IH.
Qed.

Lemma substring_toLowerCase n m s :
  substring n m (toLowerCase s) = toLowerCase (substring n m s).
Proof.
  revert n m. induction s as [|c s IH]; intros [|n] [|m]; cbn; try done;
    by rewrite IH.
Qed.

Lemma strip_ci_toLowerCase p s :
  strip_ci p (toLowerCase s) = toLowerCase <$> strip_ci p s.
Proof.
  revert s. induction p as [|a p IH]; intros s; [done|].
  destruct s as [|b s]; [done|]. cbn [toLowerCase strip_ci].
  unfold ci_eqb. rewrite lower_char_idemp.
  destruct (Ascii.eqb _ _); [apply IH | done].
Qed.

Lemma word_literal_toLowerCase prev s p :
  word_literal (lower_char <$> prev) (toLowerCase s) p = word_literal prev s p.
Proof.
  unfold word_literal.
  rewrite first_char_toLowerCase, boundary_lower, strip_ci_toLowerCase.
  destruct (boundary prev (first_char s)); [|done].
  destruct (strip_ci p s) as [rest|]; [|done]. cbn [fmap option_fmap option_map].
  by rewrite substring_toLowerCase, last_char_toLowerCase,
    first_char_toLowerCase, boundary_lower.
Qed.

(** A pattern that cannot tell a text from its lower-case form finds the same
    number of matches in both. *)
Lemma count_matches_toLowerCase (m : option ascii -> string -> option nat) :
  (∀ prev t, m (lower_char <$> prev) (toLowerCase t) = m prev t) →
  ∀ s skip prev,
    count_matches m skip (lower_char <$> prev) (toLowerCase s)
    = count_matches m skip prev s.
Proof.
  intros Hm. induction s as [|c s IH]; intros skip prev; [done|].
  cbn [toLowerCase count_matches]. destruct skip as [|k].
  - change (String (lower_char c) (toLowerCase s))
      with (toLowerCase (String c s)).
    rewrite Hm. change (Some (lower_char c)) with (lower_char <$> Some c).
    destruct (m prev (String c s)) as [[|k]|]; by rewrite IH.
  - change (Some (lower_char c)) with (lower_char <$> Some c). apply IH.
Qed.

(** X7. On texts whose characters are code units below 256 (Latin-1),
    [countLostWords] is case-insensitive: such a text and its lower-case form
    have the same count. *)
Theorem countLostWords_case_insensitive (s : string) :
  countLostWords (Some (toLowerCase s)) = countLostWords (Some s).
Proof.
  unfold countLostWords. rewrite falsy_toLowerCase.
  destruct (falsy (Some s)); [done|]. simpl default.
  unfold lostWordsPatterns. cbn [fold_left].
  f_equal; [f_equal|];
    apply (count_matches_toLowerCase _) with (prev := None);
    intros prev t; cbn [map]; by rewrite !word_literal_toLowerCase.
Qed.

(** ** Risk score: zero weights *)

(** X10. A key whose weight is zero counts as a key without a weight: unless
    the key is the name of a member inherited from [Object.prototype], giving
    it the weight 0 and deleting it from the weights yield the same score. *)
Theorem calculateRiskScore_zero_weight
    (features weights : NumObject) (k : string) (z : Q) :
  k ∉ objectPrototypeNames →
  z == 0 →
  calculateRiskScore (Some features) (Some (<[k:=z]> weights))
  = calculateRiskScore (Some features) (Some (delete k weights)).
Proof.
  intros Hk Hz. unfold calculateRiskScore.
  assert (∀ acc kv, risk_step (<[k:=z]> weights) acc kv
                    = risk_step (delete k weights) acc kv) as Hstep.
  { intros acc [k' v]. unfold risk_step, get_property. cbn [fst snd].
    destruct (decide (k = k')) as [<-|Hne].
    - rewrite lookup_insert_eq, lookup_delete_eq.
      rewrite bool_decide_eq_false_2 by done.
      assert (truthy z = false) as ->; [|done].
      apply not_true_is_false. rewrite truthy_neq. tauto.
    - by rewrite lookup_insert_ne, lookup_delete_ne. }
  assert (∀ l acc, fold_left (risk_step (<[k:=z]> weights)) l acc
                   = fold_left (risk_step (delete k weights)) l acc) as ->;
    [|done].
  induction l as [|kv l IH]; intros acc; [done|].
  cbn [fold_left]. by rewrite Hstep, IH.
Qed.

Lemma calculateRiskScore_zero_weight_witness :
  calculateRiskScore (Some sampleFeatures)
    (Some (<["speech_rate"%string := 0]> (featureWeights demoSettings)))
  = calculateRiskScore (Some sampleFeatures)
      (Some (delete "speech_rate"%string (featureWeights demoSettings))).
Proof.
  apply (calculateRiskScore_zero_weight sampleFeatures
           (featureWeights demoSettings) "speech_rate" 0).
  - apply (bool_decide_unpack _). vm_compute. reflexivity.
  - reflexivity.
Defined.

(** ** Random draws *)

Lemma valid_rng_next g :
  valid_rng g → valid_rng (Math_random g).2 ∧ 0 <= (Math_random g).1 < 1.
Proof. intros Hg. split; [exact Hg | apply Hg]. Qed.

Lemma valid_rng_const : valid_rng (mkRng (λ _, 0.5) 0).
Proof. intros n. split; by vm_compute. Qed.

(** [Math.floor(x)] for [0 <= x < n]. *)
Lemma Qfloor_range x (n : Z) :
  0 <= x → x < inject_Z n → (0 <= Qfloor x < n)%Z.
Proof.
  intros H0 Hn. pose proof (Qfloor_le x) as Hle.
  pose proof (Qlt_floor x) as Hlt. split.
  - assert (inject_Z 0 < inject_Z (Qfloor x + 1)) as H
      by (change (inject_Z 0) with 0; lra).
    rewrite <- Zlt_Qlt in H. lia.
  - assert (inject_Z (Qfloor x) < inject_Z n) as H by lra.
    by rewrite <- Zlt_Qlt in H.
Qed.

(** [n] calls of a body that keeps an invariant of the random source and
    returns values satisfying [P] give [n] such values. *)
Lemma array_map_random_spec {A} (I : Rng -> Prop) (P : A -> Prop)
    (body : Rng -> A * Rng) :
  (∀ g, I g → P (body g).1 ∧ I (body g).2) →
  ∀ n g, I g →
    length (array_map_random n body g).1 = n
    ∧ Forall P (array_map_random n body g).1
    ∧ I (array_map_random n body g).2.
Proof.
  intros Hbody. induction n as [|n IH]; intros g Hg; [by repeat split|].
  cbn [array_map_random]. destruct (Hbody g Hg) as [HP HI].
  destruct (body g) as [x g1]. cbn [fst snd] in *.
  destruct (IH g1 HI) as (Hlen & Hall & HI').
  destruct (array_map_random n body g1) as [xs g2]. cbn [fst snd length] in *.
  split; [by rewrite Hlen|]. split; [by constructor | done].
Qed.

(** ** Signal features *)

(** X11. The clamp of the quality score is never active: the score is
    0.95 minus 0.2 per detected issue, above 0.3 and at most 0.95, and the
    issues are some of low_snr, clipping and distortion, each at most once and
    in this order. *)
Theorem checkAudioQuality_values {File} (audioFile : File) (g : Rng) :
  q_qualityScore (checkAudioQuality audioFile g).1
  == 0.95 - 0.2 * inject_Z (Z.of_nat
       (length (q_issues (checkAudioQuality audioFile g).1)))
  ∧ 0.3 < q_qualityScore (checkAudioQuality audioFile g).1 <= 0.95
  ∧ sublist (q_issues (checkAudioQuality audioFile g).1)
      [low_snr; clipping; distortion].
Proof.
  unfold checkAudioQuality, Math_random. cbn [draws next].
  repeat match goal with |- context [Qgtb ?a ?b] => destruct (Qgtb a b) end;
    cbn [fst q_qualityScore q_issues app length];
    (split; [by vm_compute | split; [split; by vm_compute|]]);
    repeat (first [apply sublist_nil | apply sublist_skip | apply sublist_cons]).
Qed.

(** X12. For draws in [0, 1), [calculatePitchStats] returns a mean pitch from
    120 to 180, a variability from 800 to 1100 and a range whose lower end,
    from 80 to 120, is below its upper end, from 160 to 240, and not above the
    mean. *)
Theorem calculatePitchStats_ranges {File} (audioFile : File) (g : Rng) :
  valid_rng g →
  120 <= meanPitch (calculatePitchStats audioFile g).1 <= 180
  ∧ 800 <= variability (calculatePitchStats audioFile g).1 <= 1100
  ∧ 80 <= range_low (calculatePitchStats audioFile g).1 <= 120
  ∧ 160 <= range_high (calculatePitchStats audioFile g).1 <= 240
  ∧ range_low (calculatePitchStats audioFile g).1
    < range_high (calculatePitchStats audioFile g).1
  ∧ range_low (calculatePitchStats audioFile g).1
    <= meanPitch (calculatePitchStats audioFile g).1.
Proof.
  intros Hg. unfold calculatePitchStats, Math_random. cbn.
  pose proof (Hg (next g)). pose proof (Hg (S (next g))).
  pose proof (Hg (S (S (next g)))). pose proof (Hg (S (S (S (next g))))).
  repeat split; lra.
Qed.

Lemma calculatePitchStats_ranges_witness :
  range_low (calculatePitchStats tt (mkRng (λ _, 0.5) 0)).1
  < range_high (calculatePitchStats tt (mkRng (λ _, 0.5) 0)).1.
Proof.
  apply (calculatePitchStats_ranges tt (mkRng (λ _, 0.5) 0)).
  intros n. split; by vm_compute.
Defined.

(** X13. For draws in [0, 1), [detectAudioPauses] reports between 0 and 7
    pauses and lists exactly that many, each starting between 0 and 30 and
    lasting from 0.5 to 2.5. *)
Theorem detectAudioPauses_consistent {File} (audioFile : File) (g : Rng) :
  valid_rng g →
  (0 <= pauseCount (detectAudioPauses audioFile g).1 <= 7)%Z
  ∧ Z.of_nat (length (pauses (detectAudioPauses audioFile g).1))
    = pauseCount (detectAudioPauses audioFile g).1
  ∧ Forall (λ p, 0 <= pause_start p ∧ pause_start p <= 30
                 ∧ 0.5 <= pause_duration p ∧ pause_duration p <= 2.5)
      (pauses (detectAudioPauses audioFile g).1).
Proof.
  intros Hg. unfold detectAudioPauses.
  destruct (valid_rng_next g Hg) as [Hg1 Hr].
  destruct (Math_random g) as [r g1]. cbn [fst snd] in *.
  assert (0 <= Qfloor (r * 8) < 8)%Z as Hc
    by (apply Qfloor_range; [|change (inject_Z 8) with 8]; lra).
  match goal with
  | |- context [array_map_random ?cnt ?body g1] =>
      pose proof (λ Hb, array_map_random_spec valid_rng
                  (λ p, 0 <= pause_start p ∧ pause_start p <= 30
                        ∧ 0.5 <= pause_duration p ∧ pause_duration p <= 2.5)
                  body Hb cnt g1 Hg1) as Hspec
  end.
  destruct Hspec as (Hlen & Hall & _).
  { intros g' Hg'. unfold Math_random. cbn.
    pose proof (Hg' (next g')). pose proof (Hg' (S (next g'))).
    split; [repeat split; lra | exact Hg']. }
  destruct (array_map_random _ _ g1) as [ps g2].
  cbn [fst snd pauseCount pauses] in *.
  split; [lia|]. split; [rewrite Hlen; lia | done].
Qed.

Lemma detectAudioPauses_consistent_witness :
  Z.of_nat (length (pauses (detectAudioPauses tt (mkRng (λ _, 0.5) 0)).1))
  = pauseCount (detectAudioPauses tt (mkRng (λ _, 0.5) 0)).1.
Proof.
  apply (detectAudioPauses_consistent tt (mkRng (λ _, 0.5) 0)).
  intros n. split; by vm_compute.
Defined.

(** X14. For draws in [0, 1), [getAudioWaveform] returns 100 samples, each in
    [-1, 1). *)
Theorem getAudioWaveform_samples {File} (audioFile : File) (g : Rng) :
  valid_rng g →
  length (getAudioWaveform audioFile g).1 = 100%nat
  ∧ Forall (λ x, -1 <= x ∧ x < 1) (getAudioWaveform audioFile g).1.
Proof.
  intros Hg. unfold getAudioWaveform. cbv zeta.
  match goal with
  | |- context [array_map_random ?cnt ?body g] =>
      pose proof (λ Hb, array_map_random_spec valid_rng
                  (λ x, -1 <= x ∧ x < 1) body Hb cnt g Hg) as Hspec
  end.
  destruct Hspec as (Hlen & Hall & _); [|exact (conj Hlen Hall)].
  intros g' Hg'. unfold Math_random. cbn.
  pose proof (Hg' (next g')). split; [split; lra | exact Hg'].
Qed.

Lemma getAudioWaveform_samples_witness :
  length (getAudioWaveform tt (mkRng (λ _, 0.5) 0)).1 = 100%nat.
Proof.
  apply (getAudioWaveform_samples tt (mkRng (λ _, 0.5) 0)).
  intros n. split; by vm_compute.
Defined.

(** ** Demonstration stages and results *)

Ltac lookup_feature :=
  cbn [list_to_map foldr fst snd];
  repeat (rewrite lookup_insert_ne by discriminate);
  apply lookup_insert_eq.

(** The object literal of the eight features, built from draws in [0, 1). *)
Lemma demo_features_literal (r1 r2 r3 r4 r5 r6 r7 r8 : Q) :
  (0 <= r1 < 1) → (0 <= r2 < 1) → (0 <= r3 < 1) → (0 <= r4 < 1) →
  (0 <= r5 < 1) → (0 <= r6 < 1) → (0 <= r7 < 1) → (0 <= r8 < 1) →
  demo_features
    (list_to_map
       [ ("hesitation_count"%string, Math_floor (r1 * 10));
         ("pause_count"%string, Math_floor (r2 * 8));
         ("speech_rate"%string, 2 + r3 * 2);
         ("pitch_variability"%string, 800 + r4 * 300);
         ("semantic_anomaly"%string, 0.1 + r5 * 0.2);
         ("vague_word_count"%string, Math_floor (r6 * 3));
         ("incomplete_sentence"%string, if Qgtb r7 0.8 then 1 else 0);
         ("lost_words"%string, Math_floor (r8 * 5)) ]).
Proof.
  intros H1 H2 H3 H4 H5 H6 H7 H8. unfold demo_features.
  split; [by rewrite dom_list_to_map_L|].
  repeat split.
  - exists (Qfloor (r1 * 10)). split; [lookup_feature|].
    apply Qfloor_range; [|change (inject_Z 10) with 10]; lra.
  - exists (Qfloor (r2 * 8)). split; [lookup_feature|].
    apply Qfloor_range; [|change (inject_Z 8) with 8]; lra.
  - exists (2 + r3 * 2). split; [lookup_feature | lra].
  - exists (800 + r4 * 300). split; [lookup_feature | lra].
  - exists (0.1 + r5 * 0.2). split; [lookup_feature | lra].
  - exists (Qfloor (r6 * 3)). split; [lookup_feature|].
    apply Qfloor_range; [|change (inject_Z 3) with 3]; lra.
  - exists (if Qgtb r7 0.8 then 1 else 0)%Z.
    split; [replace (inject_Z (if Qgtb r7 0.8 then 1 else 0)%Z)
              with (if Qgtb r7 0.8 then 1 else 0)
              by (by destruct (Qgtb r7 0.8)); lookup_feature|].
    destruct (Qgtb r7 0.8); lia.
  - exists (Qfloor (r8 * 5)). split; [lookup_feature|].
    apply Qfloor_range; [|change (inject_Z 5) with 5]; lra.
Qed.

Lemma extractFeatures_demo audioFile transcription g :
  valid_rng g →
  ∃ fe g',
    extractFeatures audioFile transcription g = (Success fe, g')
    ∧ fe_file fe = audioFile
    ∧ demo_features (fe_features fe)
    ∧ valid_rng g' ∧ next g' = (8 + next g)%nat.
Proof.
  intros Hg. unfold extractFeatures, Math_random. cbn [draws next].
  eexists _, _. split; [reflexivity|]. cbn [fe_file fe_features next].
  split; [done|]. split; [|by split].
  apply demo_features_literal; apply Hg.
Qed.

Lemma indicator_count rk :
  0 <= rk < 1 → (1 <= Z.to_nat (Qfloor (rk * 3) + 1) <= 3)%nat.
Proof.
  intros H.
  assert (0 <= Qfloor (rk * 3) < 3)%Z
    by (apply Qfloor_range; [|change (inject_Z 3) with 3]; lra).
  lia.
Qed.

Lemma runAnalysisModel_demo features settings g :
  valid_rng g →
  ∃ an g',
    runAnalysisModel features settings g = (Success an, g')
    ∧ 0.7 <= an_confidence an ∧ an_confidence an <= 0.95
    ∧ an_model_used an = modelType settings
    ∧ demo_labels (an_risk_status an) (an_key_indicators an)
        (an_analysis_notes an)
    ∧ (an_risk_status an = AtRisk ↔ 0.7 < draws g (next g))
    ∧ valid_rng g'.
Proof.
  intros Hg. unfold runAnalysisModel, Math_random. cbn [draws next].
  pose proof (Hg (S (next g))) as Hc.
  pose proof (indicator_count _ (Hg (S (S (next g))))) as Hk.
  destruct (Qgtb (draws g (next g)) 0.7) eqn:E.
  - eexists _, _. split; [reflexivity|].
    cbn [an_confidence an_model_used an_risk_status an_key_indicators
           an_analysis_notes demo_labels].
    apply Qgtb_lt in E.
    split; [lra|]. split; [lra|]. split; [done|].
    split; [split; [by eexists | done]|]. split; [done | exact Hg].
  - eexists _, _. split; [reflexivity|].
    cbn [an_confidence an_model_used an_risk_status an_key_indicators
           an_analysis_notes demo_labels].
    apply Qgtb_le in E.
    split; [lra|]. split; [lra|]. split; [done|].
    split; [done|]. split; [|exact Hg].
    split; [done | intros H; lra].
Qed.

(** X15. For draws in [0, 1), [extractFeatures] succeeds for every file and
    transcription, consumes eight draws and returns the file it was given with
    the eight named features in their ranges: whole numbers below 10, 8, 3, 2
    and 5 for the counts, 2 to 4 for the speech rate, 800 to 1100 for the
    pitch variability and 0.1 to 0.3 for the semantic anomaly. *)
Theorem extractFeatures_ranges audioFile transcription g :
  valid_rng g →
  ∃ fe g',
    extractFeatures audioFile transcription g = (Success fe, g')
    ∧ fe_file fe = audioFile
    ∧ demo_features (fe_features fe)
    ∧ next g' = (8 + next g)%nat.
Proof.
  intros Hg.
  destruct (extractFeatures_demo audioFile transcription g Hg)
    as (fe & g' & E & Hfile & Hfe & _ & Hnext).
  by exists fe, g'.
Qed.

Lemma extractFeatures_ranges_witness :
  ∃ fe g',
    extractFeatures (mkFile "a.wav") "" (mkRng (λ _, 0.5) 0) = (Success fe, g')
    ∧ fe_file fe = mkFile "a.wav"
    ∧ demo_features (fe_features fe)
    ∧ next g' = 8%nat.
Proof.
  apply (extractFeatures_ranges (mkFile "a.wav") "" (mkRng (λ _, 0.5) 0)).
  intros n. split; by vm_compute.
Defined.

(** X16. For draws in [0, 1), [runAnalysisModel] succeeds for every feature
    vector and settings, with a confidence from 0.70 to 0.95 and the model name
    of the settings; a file at risk (first draw above 0.7) gets one to three
    of the indicators "Hesitation", "Semantic Anomaly", "Slow Speech Rate", in
    this order, and three notes, any other file the single indicator "Normal
    Speech Pattern" and two notes. *)
Theorem runAnalysisModel_result features settings g :
  valid_rng g →
  ∃ an g',
    runAnalysisModel features settings g = (Success an, g')
    ∧ 0.7 <= an_confidence an ∧ an_confidence an <= 0.95
    ∧ an_model_used an = modelType settings
    ∧ demo_labels (an_risk_status an) (an_key_indicators an)
        (an_analysis_notes an)
    ∧ (an_risk_status an = AtRisk ↔ 0.7 < draws g (next g)).
Proof.
  intros Hg.
  destruct (runAnalysisModel_demo features settings g Hg)
    as (an & g' & E & H1 & H2 & H3 & H4 & H5 & _).
  by exists an, g'.
Qed.

Lemma runAnalysisModel_result_witness :
  ∃ an g',
    runAnalysisModel sampleFeatures demoSettings (mkRng (λ _, 0.5) 0)
    = (Success an, g')
    ∧ 0.7 <= an_confidence an ∧ an_confidence an <= 0.95
    ∧ an_model_used an = "isolation_forest"%string
    ∧ demo_labels (an_risk_status an) (an_key_indicators an)
        (an_analysis_notes an)
    ∧ (an_risk_status an = AtRisk ↔ 0.7 < 0.5).
Proof.
  apply (runAnalysisModel_result sampleFeatures demoSettings
           (mkRng (λ _, 0.5) 0)).
  intros n. split; by vm_compute.
Defined.

(** X17. [preprocessAudio] and [transcribeAudio] never fail and return the
    file they were given; for a draw in [0, 1) the duration is from 20 to 80;
    the transcription does not depend on the file or the model, and the model
    reported is the string asked for, or "wav2vec2" when the argument is
    undefined. *)
Theorem preprocess_and_transcribe audioFile model g :
  valid_rng g →
  (∃ d g', preprocessAudio audioFile g = (Success d, g')
           ∧ pre_file d = audioFile
           ∧ 20 <= pre_duration d ∧ pre_duration d <= 80
           ∧ next g' = S (next g))
  ∧ (∃ tr, transcribeAudio audioFile model g = (Success tr, g)
           ∧ tr_file tr = audioFile
           ∧ tr_transcription tr = placeholderTranscription
           ∧ tr_model tr = default "wav2vec2"%string model).
Proof.
  intros Hg. split.
  - unfold preprocessAudio, Math_random. eexists _, _.
    split; [reflexivity|]. cbn [pre_file pre_duration next].
    pose proof (Hg (next g)). repeat split; lra.
  - unfold transcribeAudio. eexists. by split.
Qed.

Lemma preprocess_and_transcribe_witness :
  ∃ tr, transcribeAudio (mkFile "a.wav") None (mkRng (λ _, 0.5) 0)
        = (Success tr, mkRng (λ _, 0.5) 0)
        ∧ tr_file tr = mkFile "a.wav"
        ∧ tr_transcription tr = placeholderTranscription
        ∧ tr_model tr = "wav2vec2"%string.
Proof.
  apply (preprocess_and_transcribe (mkFile "a.wav") None (mkRng (λ _, 0.5) 0)).
  intros n. split; by vm_compute.
Defined.

(** ** The results of the pipeline *)

Section PipelineResults.

Import Orchestrator.

Context {W : Type}.
Variable preprocess_stage :
  AudioFile -> W -> StageResult PreprocessData * W.
Variable transcribe_stage :
  AudioFile -> option string -> W -> StageResult TranscriptionData * W.
Variable extract_stage :
  AudioFile -> string -> W -> StageResult FeaturesData * W.
Variable analysis_stage :
  NumObject -> Settings -> W -> StageResult AnalysisData * W.

#[local] Abbreviation results_of :=
  (results_of preprocess_stage transcribe_stage extract_stage analysis_stage).
#[local] Abbreviation pipeline :=
  (Orchestrator.processAudioPipeline
     preprocess_stage transcribe_stage extract_stage analysis_stage).

(** A run of the loop that completes has pushed the records compiled from
    what the stages returned, in the order of the files. *)
Lemma loop_results n settings files :
  ∀ i results st rs st',
    processFiles preprocess_stage transcribe_stage extract_stage
      analysis_stage n settings i files results st = (Done rs, st') →
    ∃ new, rs = results ++ new
           ∧ results_of settings i files (world st) new (world st').
Proof.
  induction files as [|f files IH]; intros i results st rs st' Hrun.
  - cbn in Hrun. injection Hrun as <- <-. exists [].
    split; [by rewrite app_nil_r | constructor].
  - cbn [processFiles] in Hrun.
    unfold mbind at 1, M_bind at 1, bind at 1 in Hrun.
    destruct (stages_cases preprocess_stage transcribe_stage extract_stage
                analysis_stage settings f (world st))
      as [(tr & fe & an & w' & Hok) | (k & e & w' & _ & Hfail)].
    + rewrite (file_body_succeeds _ _ _ _ n settings i f st tr fe an w' Hok)
        in Hrun.
      apply IH in Hrun as (new & -> & Hrest). cbn [world] in Hrest.
      exists (compiled_result i f tr fe an :: new).
      split; [by rewrite <- (assoc_L (++))|]. by econstructor.
    + rewrite (file_body_fails _ _ _ _ n settings i f st k e w' Hfail) in Hrun.
      discriminate.
Qed.

Lemma pipeline_results files settings st results st' :
  pipeline files settings st = (PipelineSuccess results, st') →
  results_of settings 0 files (world st) results (world st').
Proof.
  unfold Orchestrator.processAudioPipeline.
  destruct (processFiles _ _ _ _ _ settings 0 files [] st)
    as [[rs|e] st1] eqn:Hrun; [|discriminate].
  intros [= <- <-]. by apply loop_results in Hrun as (new & -> & H).
Qed.

Lemma results_of_names settings i files w rs w' :
  results_of settings i files w rs w' →
  r_file_name <$> rs = name <$> files
  ∧ r_id <$> rs = result_id <$> seq i (length files).
Proof.
  induction 1 as [|i f files w tr fe an w1 rs w2 _ _ [IH1 IH2]]; [done|].
  cbn [length seq]. rewrite !fmap_cons, IH1, IH2. by split.
Qed.

End PipelineResults.

Lemma result_id_inj i j :
  Orchestrator.result_id i = Orchestrator.result_id j → i = j.
Proof.
  unfold Orchestrator.result_id. intros H.
  assert (∀ s t, String.append "result-" s = String.append "result-" t → s = t)
    as Hinj by (by intros s t [= E]).
  apply Hinj in H.
  apply (f_equal NilEmpty.uint_of_string) in H.
  rewrite !NilEmpty.usu in H. injection H as H.
  apply (f_equal Nat.of_uint) in H. by rewrite !Unsigned.of_to in H.
Qed.

(** X18. When the pipeline succeeds, the results are in the order of the
    files: the result at index [i] carries the name of the file at index [i]
    and the id "result-i", so no two results of a batch share an id. *)
Theorem pipeline_results_in_order {W}
    (preprocess_stage : AudioFile -> W -> StageResult PreprocessData * W)
    (transcribe_stage :
       AudioFile -> option string -> W -> StageResult TranscriptionData * W)
    (extract_stage : AudioFile -> string -> W -> StageResult FeaturesData * W)
    (analysis_stage :
       NumObject -> Settings -> W -> StageResult AnalysisData * W)
    files settings st results st' :
  Orchestrator.processAudioPipeline preprocess_stage transcribe_stage
    extract_stage analysis_stage files settings st
  = (PipelineSuccess results, st') →
  r_file_name <$> results = name <$> files
  ∧ r_id <$> results = Orchestrator.result_id <$> seq 0 (length files)
  ∧ NoDup (r_id <$> results).
Proof.
  intros Hrun. apply pipeline_results in Hrun.
  apply results_of_names in Hrun as [Hnames Hids].
  split; [done|]. split; [done|]. rewrite Hids.
  apply NoDup_fmap_2; [|apply NoDup_seq].
  intros i j. apply result_id_inj.
Qed.

Lemma pipeline_results_in_order_witness :
  r_file_name
    <$> match (processAudioPipeline [mkFile "a.wav"; mkFile "b.wav"]
                 demoSettings sampleDraws).1 with
        | PipelineSuccess results => results
        | PipelineFailure _ => []
        end
  = ["a.wav"; "b.wav"]%string.
Proof.
  refine (proj1
    (pipeline_results_in_order
       preprocessAudio transcribeAudio extractFeatures runAnalysisModel
       [mkFile "a.wav"; mkFile "b.wav"] demoSettings
       (Orchestrator.mkRun sampleDraws [])
       (match (processAudioPipeline [mkFile "a.wav"; mkFile "b.wav"]
                 demoSettings sampleDraws).1 with
        | PipelineSuccess results => results
        | PipelineFailure _ => []
        end)
       (Orchestrator.processAudioPipeline
          preprocessAudio transcribeAudio extractFeatures runAnalysisModel
          [mkFile "a.wav"; mkFile "b.wav"] demoSettings
          (Orchestrator.mkRun sampleDraws [])).2
       _)).
  vm_compute. reflexivity.
Defined.



(** With the demonstration stages, the body of the loop does the same
    whatever the settings: the model names they carry are not part of a
    result. *)
Lemma demo_processFile_settings n s1 s2 i f st :
  Orchestrator.processFile preprocessAudio transcribeAudio extractFeatures
    runAnalysisModel n s1 i f st
  = Orchestrator.processFile preprocessAudio transcribeAudio extractFeatures
      runAnalysisModel n s2 i f st.
Proof.
  destruct (demo_stages_succeed s1 f (Orchestrator.world st))
    as (tr1 & fe1 & an1 & g1 & H1).
  destruct (demo_stages_succeed s2 f (Orchestrator.world st))
    as (tr2 & fe2 & an2 & g2 & H2).
  rewrite (file_body_succeeds _ _ _ _ n s1 i f st _ _ _ _ H1).
  rewrite (file_body_succeeds _ _ _ _ n s2 i f st _ _ _ _ H2).
  destruct H1 as [d1 w1 tr1 w2 fe1 w3 an1 w4 P1 T1 F1 A1].
  destruct H2 as [d1' w1' tr2 w2' fe2 w3' an2 w4' P2 T2 F2 A2].
  rewrite P1 in P2. injection P2 as <- <-.
  unfold transcribeAudio in T1, T2.
  injection T1 as <- <-. injection T2 as <- <-.
  cbn [tr_transcription] in *. rewrite F1 in F2. injection F2 as <- <-.
  pose proof (runAnalysisModel_label (fe_features fe1) s1 w3) as [_ G1].
  pose proof (runAnalysisModel_label (fe_features fe1) s2 w3) as [_ G2].
  rewrite A1 in G1. rewrite A2 in G2. cbn [snd] in G1, G2.
  unfold runAnalysisModel, Math_random in A1, A2. cbn [draws next] in A1, A2.
  destruct (Qgtb (draws w3 (next w3)) 0.7);
    injection A1 as <- <-; injection A2 as <- <-; reflexivity.
Qed.

(** X20. With the stages as they are implemented, the settings have no
    effect on what the pipeline returns: for the same files and draws, two
    runs with any two settings return the same results and make the same
    progress updates. *)
Theorem demo_pipeline_ignores_settings files s1 s2 g :
  processAudioPipeline files s1 g = processAudioPipeline files s2 g.
Proof.
  unfold processAudioPipeline, Orchestrator.processAudioPipeline.
  assert (∀ n i results st,
            Orchestrator.processFiles preprocessAudio transcribeAudio
              extractFeatures runAnalysisModel n s1 i files results st
            = Orchestrator.processFiles preprocessAudio transcribeAudio
                extractFeatures runAnalysisModel n s2 i files results st)
    as ->; [|done].
  induction files as [|f files IH]; intros n i results st; [done|].
  cbn [Orchestrator.processFiles].
  unfold mbind, Orchestrator.M_bind, Orchestrator.bind.
  rewrite (demo_processFile_settings n s1 s2).
  destruct (Orchestrator.processFile _ _ _ _ n s2 i f st) as [[r|e] st1];
    [apply IH | done].
Qed.

Lemma demo_results_of_valid settings i files g rs g' :
  results_of preprocessAudio transcribeAudio extractFeatures runAnalysisModel
    settings i files g rs g' →
  valid_rng g →
  Forall (λ r, demo_result r ∧ r_transcription r = placeholderTranscription) rs
  ∧ valid_rng g'.
Proof.
  induction 1 as [|i f files w tr fe an w1 rs w2 Hok _ IH]; intros Hg;
    [by split|].
  destruct Hok as [d1 g1 tr g2 fe g3 an g4 P T F A].
  unfold preprocessAudio, Math_random in P. injection P as _ <-.
  unfold transcribeAudio in T. injection T as <- <-.
  assert (valid_rng (mkRng (draws w) (S (next w)))) as Hg1 by exact Hg.
  destruct (extractFeatures_demo f placeholderTranscription _ Hg1)
    as (fe' & g3' & F' & _ & Hfe & Hg3 & _).
  cbn [tr_transcription] in F. rewrite F in F'. injection F' as <- <-.
  destruct (runAnalysisModel_demo (fe_features fe) settings g3 Hg3)
    as (an' & g4' & A' & Hc1 & Hc2 & _ & Hlab & _ & Hg4).
  rewrite A in A'. injection A' as <- <-.
  destruct (IH Hg4) as [Hall Hg']. split; [|done].
  constructor; [|done]. unfold demo_result, compiled_result.
  cbn [r_confidence r_features r_risk_status r_key_indicators
         r_analysis_notes r_transcription tr_transcription].
  split; [|done]. split; [done|]. split; [done|]. by split.
Qed.

(** X21. With the stages as they are implemented and draws in [0, 1), every
    result the pipeline returns has a confidence from 0.70 to 0.95, the eight
    features in their ranges, indicators and notes that go with its risk
    status, and the placeholder transcription. *)
Theorem demo_pipeline_results_valid files settings g :
  valid_rng g →
  ∃ results,
    (processAudioPipeline files settings g).1 = PipelineSuccess results
    ∧ Forall (λ r, demo_result r
                   ∧ r_transcription r = placeholderTranscription) results.
Proof.
  intros Hg. destruct (demo_pipeline_succeeds files settings g)
    as (results & E & _ & _).
  exists results. split; [done|].
  unfold processAudioPipeline in E.
  destruct (Orchestrator.processAudioPipeline _ _ _ _ files settings _)
    as [r st'] eqn:Hrun.
  cbn [fst] in E. subst r. apply pipeline_results in Hrun.
  by apply (demo_results_of_valid _ _ _ _ _ _ Hrun).
Qed.

Lemma demo_pipeline_results_valid_witness :
  ∃ results,
    (processAudioPipeline [mkFile "a.wav"] demoSettings
       (mkRng (λ _, 0.5) 0)).1 = PipelineSuccess results
    ∧ Forall (λ r, demo_result r
                   ∧ r_transcription r = placeholderTranscription) results.
Proof.
  apply (demo_pipeline_results_valid [mkFile "a.wav"] demoSettings
           (mkRng (λ _, 0.5) 0)).
  intros n. split; by vm_compute.
Defined.

(** ** Demonstration results of the context and the backend *)

Lemma mockResult_demo id file_name g :
  valid_rng g →
  demo_result (mockResult id file_name g).1
  ∧ r_id (mockResult id file_name g).1 = id
  ∧ r_file_name (mockResult id file_name g).1 = file_name
  ∧ valid_rng (mockResult id file_name g).2.
Proof.
  intros Hg. unfold mockResult, Math_random. cbn [draws next].
  pose proof (Hg (S (next g))) as Hc.
  pose proof (indicator_count _ (Hg (S (S (next g))))) as Hk.
  destruct (Qgtb (draws g (next g)) 0.7); cbn [fst snd draws next];
    unfold demo_result;
    cbn [r_id r_file_name r_confidence r_features r_risk_status
           r_key_indicators r_analysis_notes demo_labels].
  - split; [|split; [done|split; [done|exact Hg]]].
    split; [lra|]. split; [lra|].
    split; [apply demo_features_literal; apply Hg|].
    split; [by eexists | done].
  - split; [|split; [done|split; [done|exact Hg]]].
    split; [lra|]. split; [lra|].
    split; [apply demo_features_literal; apply Hg | done].
Qed.

Lemma mockResults_from_demo names :
  ∀ index g,
    valid_rng g →
    r_file_name <$> (mockResults_from index names g).1 = names
    ∧ r_id <$> (mockResults_from index names g).1
      = Orchestrator.result_id <$> seq index (length names)
    ∧ Forall demo_result (mockResults_from index names g).1
    ∧ valid_rng (mockResults_from index names g).2.
Proof.
  induction names as [|fileName names IH]; intros index g Hg;
    [split; [done|split; [done|split; [constructor | exact Hg]]]|].
  cbn [mockResults_from].
  destruct (mockResult_demo (Orchestrator.result_id index) fileName g Hg)
    as (Hr & Hid & Hname & Hg1).
  destruct (mockResult _ fileName g) as [x g1]. cbn [fst snd] in *.
  destruct (IH (S index) g1 Hg1) as (Hn & Hi & Hall & Hg2).
  destruct (mockResults_from (S index) names g1) as [xs g2].
  cbn [fst snd length seq] in *. rewrite !fmap_cons, Hn, Hi, Hid, Hname.
  split; [done|]. split; [done|]. split; [by constructor | exact Hg2].
Qed.

(** X22. For draws in [0, 1), [generateMockResults] returns one result per
    uploaded file, in order and under the file's name, or five results named
    sample1.wav to sample5.wav when no file is uploaded; the ids are
    "result-0", "result-1", ... and every result has its confidence, features,
    indicators and notes in the ranges of the demonstration. *)
Theorem generateMockResults_results audioFiles g :
  valid_rng g →
  r_file_name <$> (generateMockResults audioFiles g).1
  = (if decide (audioFiles = [])
     then ["sample1.wav"; "sample2.wav"; "sample3.wav"; "sample4.wav";
           "sample5.wav"]%string
     else name <$> audioFiles)
  ∧ r_id <$> (generateMockResults audioFiles g).1
    = Orchestrator.result_id
        <$> seq 0 (if decide (audioFiles = []) then 5 else length audioFiles)
  ∧ Forall demo_result (generateMockResults audioFiles g).1.
Proof.
  intros Hg. unfold generateMockResults. cbv zeta.
  destruct audioFiles as [|f files].
  - rewrite decide_True by done. cbn [length Nat.ltb Nat.leb].
    destruct (mockResults_from_demo
                ["sample1.wav"; "sample2.wav"; "sample3.wav"; "sample4.wav";
                 "sample5.wav"]%string 0 g Hg) as (Hn & Hi & Hall & _).
    split; [done|]. by split.
  - rewrite decide_False by done. cbn [length Nat.ltb Nat.leb].
    destruct (mockResults_from_demo (name <$> f :: files) 0 g Hg)
      as (Hn & Hi & Hall & _).
    rewrite length_fmap in Hi. split; [done|]. by split.
Qed.

Lemma generateMockResults_results_witness :
  r_file_name <$> (generateMockResults [mkFile "a.wav"] (mkRng (λ _, 0.5) 0)).1
  = ["a.wav"%string].
Proof.
  apply (generateMockResults_results [mkFile "a.wav"] (mkRng (λ _, 0.5) 0)).
  intros n. split; by vm_compute.
Defined.

(** X23. For draws in [0, 1), [getAnalysisResults] returns five results, for
    sample_1.wav to sample_5.wav, with the ids "result-0" to "result-4", each
    with its confidence, features, indicators and notes in the ranges of the
    demonstration, whatever the task id. *)
Theorem getAnalysisResults_results taskId g :
  valid_rng g →
  r_file_name <$> (getAnalysisResults taskId g).1
  = ["sample_1.wav"; "sample_2.wav"; "sample_3.wav"; "sample_4.wav";
     "sample_5.wav"]%string
  ∧ r_id <$> (getAnalysisResults taskId g).1
    = ["result-0"; "result-1"; "result-2"; "result-3"; "result-4"]%string
  ∧ Forall demo_result (getAnalysisResults taskId g).1.
Proof.
  intros Hg. unfold getAnalysisResults.
  match goal with
  | |- context [mockResults_from 0 ?names g] =>
      destruct (mockResults_from_demo names 0 g Hg) as (Hn & Hi & Hall & _)
  end.
  split; [by rewrite Hn|]. split; [by rewrite Hi | done].
Qed.

Lemma getAnalysisResults_results_witness :
  r_id <$> (getAnalysisResults "task_1" (mkRng (λ _, 0.5) 0)).1
  = ["result-0"; "result-1"; "result-2"; "result-3"; "result-4"]%string.
Proof.
  apply (getAnalysisResults_results "task_1" (mkRng (λ _, 0.5) 0)).
  intros n. split; by vm_compute.
Defined.

(** ** The analysis context *)

Lemma dispatch_all_app s actions1 actions2 :
  dispatch_all s (actions1 ++ actions2)
  = dispatch_all (dispatch_all s actions1) actions2.
Proof. apply fold_left_app. Qed.

(** Progress updates change the step, its name and its progress, nothing
    else. *)
Lemma dispatch_updates_frame us :
  ∀ s,
    st_datasetPath (dispatch_all s (UPDATE_PROCESSING <$> us)) = st_datasetPath s
    ∧ st_audioFiles (dispatch_all s (UPDATE_PROCESSING <$> us)) = st_audioFiles s
    ∧ st_settings (dispatch_all s (UPDATE_PROCESSING <$> us)) = st_settings s
    ∧ st_results (dispatch_all s (UPDATE_PROCESSING <$> us)) = st_results s
    ∧ st_error (dispatch_all s (UPDATE_PROCESSING <$> us)) = st_error s
    ∧ isProcessing (st_processing (dispatch_all s (UPDATE_PROCESSING <$> us)))
      = isProcessing (st_processing s)
    ∧ totalSteps (st_processing (dispatch_all s (UPDATE_PROCESSING <$> us)))
      = totalSteps (st_processing s).
Proof.
  induction us as [|u us IH]; intros s; [done|].
  rewrite fmap_cons. unfold dispatch_all in *. cbn [fold_left].
  destruct (IH (analysisReducer s (UPDATE_PROCESSING u)))
    as (-> & -> & -> & -> & -> & -> & ->).
  done.
Qed.

Lemma batch_updates_last n m :
  ∃ us, Orchestrator.batch_updates n 0 (S m)
        = us ++ [Orchestrator.compiling m n].
Proof.
  unfold Orchestrator.batch_updates. rewrite seq_S, fmap_app, join_app.
  cbn [plus fmap list_fmap mjoin list_join Orchestrator.file_updates].
  eexists (_ ++ [_; _; _; _; _; _; _; _]).
  by rewrite <- (assoc_L (++)), app_nil_r.
Qed.

(** X24. A whole run seen by the context: after START_PROCESSING, the
    progress updates of a successful pipeline run on a non-empty batch
    dispatched as UPDATE_PROCESSING, and SET_RESULTS with the results, the
    state shows step 5, "Compiling Results", at progress 100, is no longer
    processing, holds the results and no error, and has kept the dataset
    path, the audio files, the settings and the number of steps. *)
Theorem context_after_successful_run {W}
    (preprocess_stage : AudioFile -> W -> StageResult PreprocessData * W)
    (transcribe_stage :
       AudioFile -> option string -> W -> StageResult TranscriptionData * W)
    (extract_stage : AudioFile -> string -> W -> StageResult FeaturesData * W)
    (analysis_stage :
       NumObject -> Settings -> W -> StageResult AnalysisData * W)
    files settings w results st' (s : State) :
  Orchestrator.processAudioPipeline preprocess_stage transcribe_stage
    extract_stage analysis_stage files settings (Orchestrator.mkRun w [])
  = (PipelineSuccess results, st') →
  files ≠ [] →
  ∃ progress,
    dispatch_all s
      (START_PROCESSING
       :: (UPDATE_PROCESSING <$> Orchestrator.log st')
       ++ [SET_RESULTS results])
    = mkState (st_datasetPath s) (st_audioFiles s) (st_settings s)
        (mkProcessing false 5 (totalSteps (st_processing s))
           "Compiling Results" progress)
        (Some results) None
    ∧ progress == 100.
Proof.
  intros Hrun Hne.
  unfold Orchestrator.processAudioPipeline in Hrun.
  destruct (Orchestrator.processFiles _ _ _ _ _ settings 0 files [] _)
    as [[rs|e] st1] eqn:Hloop; [|discriminate].
  injection Hrun as <- <-.
  apply loop_done in Hloop as [Hlog _]. cbn [Orchestrator.log app] in Hlog.
  destruct files as [|f files]; [done|]. cbn [length] in Hlog.
  destruct (batch_updates_last (S (length files)) (length files))
    as [us Hus].
  rewrite Hlog, Hus. exists (u_progress (Orchestrator.compiling (length files)
                                          (S (length files)))).
  split;
    [|apply (compiling_progress_full (S (length files)) (length files));
      [lia | reflexivity]].
  change (START_PROCESSING :: ?l) with ([START_PROCESSING] ++ l).
  rewrite fmap_app, !dispatch_all_app.
  set (s1 := dispatch_all s [START_PROCESSING]).
  destruct (dispatch_updates_frame us s1) as (H1 & H2 & H3 & H4 & H5 & H6 & H7).
  set (s2 := dispatch_all s1 (UPDATE_PROCESSING <$> us)) in *.
  clearbody s2. unfold dispatch_all at 1 2.
  cbn [fmap list_fmap fold_left analysisReducer].
  cbn [Orchestrator.compiling u_currentStep u_stepName u_progress
         st_datasetPath st_audioFiles st_settings st_processing st_results
         st_error isProcessing p_currentStep totalSteps p_stepName p_progress].
  rewrite H1, H2, H3, H5, H7. by destruct s.
Qed.

Lemma context_after_successful_run_witness :
  ∃ progress,
    dispatch_all initialState
      (START_PROCESSING
       :: (UPDATE_PROCESSING
             <$> (processAudioPipeline [mkFile "a.wav"; mkFile "b.wav"]
                    demoSettings sampleDraws).2)
       ++ [SET_RESULTS
             match (processAudioPipeline [mkFile "a.wav"; mkFile "b.wav"]
                      demoSettings sampleDraws).1 with
             | PipelineSuccess results => results
             | PipelineFailure _ => []
             end])
    = mkState "" [] demoSettings
        (mkProcessing false 5 5 "Compiling Results" progress)
        (Some match (processAudioPipeline [mkFile "a.wav"; mkFile "b.wav"]
                       demoSettings sampleDraws).1 with
              | PipelineSuccess results => results
              | PipelineFailure _ => []
              end) None
    ∧ progress == 100.
Proof.
  refine (context_after_successful_run
            preprocessAudio transcribeAudio extractFeatures runAnalysisModel
            [mkFile "a.wav"; mkFile "b.wav"] demoSettings sampleDraws
            (match (processAudioPipeline [mkFile "a.wav"; mkFile "b.wav"]
                      demoSettings sampleDraws).1 with
             | PipelineSuccess results => results
             | PipelineFailure _ => []
             end)
            (Orchestrator.processAudioPipeline
               preprocessAudio transcribeAudio extractFeatures
               runAnalysisModel [mkFile "a.wav"; mkFile "b.wav"]
               demoSettings (Orchestrator.mkRun sampleDraws [])).2
            initialState _ _).
  - vm_compute. reflexivity.
  - discriminate.
Defined.

(** The invariant of the reducer. *)
Lemma analysisReducer_invariant s action :
  totalSteps (st_processing s) = 5%nat
  ∧ (isProcessing (st_processing s) = true → st_error s = None) →
  totalSteps (st_processing (analysisReducer s action)) = 5%nat
  ∧ (isProcessing (st_processing (analysisReducer s action)) = true →
     st_error (analysisReducer s action) = None).
Proof. intros [H1 H2]. by destruct action. Qed.

(** X25. In every state the context reaches from its initial state by
    actions whose UPDATE_PROCESSING payloads carry [progress] and, besides it,
    at most [currentStep] and [stepName] (as every dispatch of the sources
    does), the number of steps is 5 and no error is set while processing is
    under way. *)
Theorem context_invariant (actions : list Action) :
  totalSteps (st_processing (dispatch_all initialState actions)) = 5%nat
  ∧ (isProcessing (st_processing (dispatch_all initialState actions)) = true →
     st_error (dispatch_all initialState actions) = None).
Proof.
  assert (∀ s, totalSteps (st_processing s) = 5%nat
               ∧ (isProcessing (st_processing s) = true → st_error s = None) →
               totalSteps (st_processing (dispatch_all s actions)) = 5%nat
               ∧ (isProcessing (st_processing (dispatch_all s actions)) = true →
                  st_error (dispatch_all s actions) = None)) as Hinv.
  { induction actions as [|a actions IH]; intros s Hs; [done|].
    unfold dispatch_all in *. cbn [fold_left].
    by apply IH, analysisReducer_invariant. }
  apply (Hinv initialState). by split.
Qed.

Lemma context_invariant_witness :
  st_error (dispatch_all initialState
              [SET_ERROR "failed"; START_PROCESSING;
               UPDATE_PROCESSING (mkUpdate None None 50)]) = None.
Proof.
  apply (context_invariant
           [SET_ERROR "failed"; START_PROCESSING;
            UPDATE_PROCESSING (mkUpdate None None 50)]).
  reflexivity.
Defined.

(** ** Counting tokens of two texts put together *)

Section TokenCounts.

(** A set of tokens, none of them empty. *)
Variable P : string -> Prop.
Context `{∀ w, Decision (P w)}.
Hypothesis P_nonempty : ¬ P EmptyString.

Lemma pieces_in_prev s : pieces_in P true s = pieces_in P false s.
Proof.
  unfold pieces_in. destruct s as [|c s]; [done|]. cbn [split_go].
  destruct (is_space c); [|done].
  destruct (split_go is_space true s) as [t r]. cbn [fst snd].
  by rewrite (filter_cons_False _ EmptyString).
Qed.

Lemma split_go_append (sp : ascii) s1 s2 :
  is_space sp = true →
  ((split_go is_space false (s1 ++ String sp s2)).1
   = (split_go is_space false s1).1
   ∧ length (filter P (split_go is_space false (s1 ++ String sp s2)).2)
     = (length (filter P (split_go is_space false s1).2)
        + pieces_in P true s2)%nat)
  ∧ pieces_in P true (s1 ++ String sp s2)
    = (pieces_in P true s1 + pieces_in P true s2)%nat.
Proof.
  intros Hsp. unfold pieces_in.
  induction s1 as [|c s1 [[IHh IHt] IHn]].
  - change (String.append EmptyString (String sp s2)) with (String sp s2).
    cbn [split_go fst snd]. rewrite Hsp.
    destruct (split_go is_space true s2) as [t r]. cbn [fst snd].
    rewrite (filter_cons_False _ EmptyString) by done.
    cbn [filter list_filter length]. by repeat split.
  - change (String.append (String c s1) (String sp s2))
      with (String c (String.append s1 (String sp s2))).
    cbn [split_go]. destruct (is_space c).
    + destruct (split_go is_space true (s1 ++ String sp s2)) as [t r].
      destruct (split_go is_space true s1) as [t1 r1]. cbn [fst snd] in *.
      by repeat split.
    + destruct (split_go is_space false (s1 ++ String sp s2)) as [t r].
      destruct (split_go is_space false s1) as [t1 r1]. cbn [fst snd] in *.
      subst t. split; [by split|].
      rewrite (filter_cons _ (String c t1) r), (filter_cons _ (String c t1) r1).
      destruct (decide (P (String c t1))); cbn [length]; lia.
Qed.

Lemma pieces_in_append (sp : ascii) s1 s2 :
  is_space sp = true →
  length (filter P (split_ws (s1 ++ String sp s2)))
  = (length (filter P (split_ws s1)) + length (filter P (split_ws s2)))%nat.
Proof.
  intros Hsp. unfold split_ws, split_on.
  destruct (split_go_append sp s1 s2 Hsp) as [[Hh Ht] _].
  rewrite pieces_in_prev in Ht. unfold pieces_in in Ht.
  destruct (split_go is_space false (s1 ++ String sp s2)) as [t r].
  destruct (split_go is_space false s1) as [t1 r1].
  destruct (split_go is_space false s2) as [t2 r2]. cbn [fst snd] in *.
  subst t. rewrite (filter_cons _ t1 r), (filter_cons _ t1 r1).
  destruct (decide (P t1)); cbn [length]; lia.
Qed.

End TokenCounts.

Lemma toLowerCase_append s1 s2 :
  toLowerCase (s1 ++ s2) = (toLowerCase s1 ++ toLowerCase s2)%string.
Proof.
  induction s1 as [|c s1 IH]; [done|].
  change (toLowerCase (String c (String.append s1 s2))
          = String (lower_char c)
              (String.append (toLowerCase s1) (toLowerCase s2))).
  cbn [toLowerCase]. by rewrite IH.
Qed.

(** X27. The hesitation count and the vague-word count are additive: the
    count of two texts joined by a space is the sum of their counts. *)
Theorem counts_of_joined_texts (s1 s2 : string) :
  countHesitations (Some (s1 ++ " " ++ s2)%string)
  = (countHesitations (Some s1) + countHesitations (Some s2))%nat
  ∧ countVagueWords (Some (s1 ++ " " ++ s2)%string)
    = (countVagueWords (Some s1) + countVagueWords (Some s2))%nat.
Proof.
  assert (∀ s, countHesitations (Some s)
               = length (filter (λ w, w ∈ hesitationWords)
                           (split_ws (toLowerCase s)))) as Hh
    by (intros [|c s]; [by vm_compute | done]).
  assert (∀ s, countVagueWords (Some s)
               = length (filter (λ w, w ∈ vagueWords)
                           (split_ws (toLowerCase s)))) as Hv
    by (intros [|c s]; [by vm_compute | done]).
  rewrite !Hh, !Hv, !toLowerCase_append. cbn [toLowerCase].
  change (String (lower_char " ") EmptyString ++ toLowerCase s2)%string
    with (String " " (toLowerCase s2)).
  split; apply pieces_in_append; try done;
    by apply (bool_decide_unpack _); vm_compute.
Qed.
